(** * Representational similarity analysis notebook (fmri-5-rsa.ipynb)

    A shallow embedding of the array computations of the notebook: the
    hand-built model RDMs (animacy, tools, real-world size), the square
    form that is plotted, [rank_percentile], and the SciPy routines the
    notebook relies on ([pdist], [squareform], [rankdata], [spearmanr]).

    Numbers.  The notebook's literals ([.3], [.35], [.5], [1], ...) are
    binary64 floats; they are embedded as Rocq's primitive floats, so that
    closed computations evaluate bit for bit as in Python, and
    [rank_percentile] divides and multiplies in binary64 as NumPy does;
    what is proved of it for every array rests on the specification of the
    binary64 operations ([SpecFloat]).  The distance measures and the rank
    correlation of sections 4.2 and 4.3 of the specification are stated
    over the real numbers, where they are defined, with exact ranks. *)

From Stdlib Require Import String Ascii.
From Stdlib Require Import List Sorted Permutation Arith PeanoNat Lia Bool.
From Stdlib Require OrderedTypeEx Uint63.
From Stdlib Require Import ZArith QArith Qabs Qpower Lqa.
From Stdlib Require Import Floats.
From Stdlib Require Import Reals Qreals Lra.
Import ListNotations.

Set Warnings "-inexact-float".
Local Close Scope Q_scope.
Local Open Scope nat_scope.
Local Open Scope list_scope.

(* ================================================================== *)
(** * Part I: definitions *)
(* ================================================================== *)

(** ** Python exceptions as an error monad *)

(** The failures the notebook can run into: an out-of-range index, a
    value of the wrong shape, and the degenerate (zero variance) vector of
    sections 4.2 and 7 of the specification. *)
Inductive exn : Type :=
| IndexError
| ValueError
| DegenerateVector.

Inductive result (A : Type) : Type :=
| Ok (a : A)
| Raise (e : exn).

Arguments Ok {A} a.
Arguments Raise {A} e.

Definition bind {A B : Type} (m : result A) (k : A -> result B) : result B :=
  match m with
  | Ok a => k a
  | Raise e => Raise e
  end.

Notation "x <- m ;; k" := (bind m (fun x => k))
  (at level 61, m at next level, right associativity).

(** A [for] loop over [xs] that threads the state [s] and stops at the
    first exception. *)
Fixpoint for_each {S X : Type} (body : S -> X -> result S) (xs : list X) (s : S)
  : result S :=
  match xs with
  | [] => Ok s
  | x :: rest => s' <- body s x ;; for_each body rest s'
  end.

(** Evaluate the elements left to right; the first exception aborts. *)
Fixpoint sequence {A : Type} (ms : list (result A)) : result (list A) :=
  match ms with
  | [] => Ok []
  | m :: rest => a <- m ;; r <- sequence rest ;; Ok (a :: r)
  end.

(** ** Sequences: indexing, item assignment, [itertools.combinations] *)

(** [l[i]] for a non-negative index. *)
Definition getitem {A : Type} (l : list A) (i : nat) : result A :=
  match nth_error l i with
  | Some x => Ok x
  | None => Raise IndexError
  end.

(** [l[i] = v] on an array: in place, [IndexError] out of range. *)
Fixpoint setitem {A : Type} (l : list A) (i : nat) (v : A) : result (list A) :=
  match l, i with
  | [], _ => Raise IndexError
  | _ :: t, O => Ok (v :: t)
  | h :: t, S i' => t' <- setitem t i' v ;; Ok (h :: t')
  end.

(** [l[[i1, ..., ik]] = v]: every listed position receives [v]. *)
Definition setitems {A : Type} (l : list A) (idx : list nat) (v : A)
  : result (list A) :=
  for_each (fun acc i => setitem acc i v) idx l.

(** [l[idx]] with a list of positions (NumPy integer-array indexing). *)
Definition take {A : Type} (l : list A) (idx : list nat) : result (list A) :=
  sequence (map (getitem l) idx).

(** [itertools.combinations(pool, r)]: the [r]-length subsequences of
    [pool], emitted in lexicographic order of the positions they take. *)
Fixpoint combinations {A : Type} (pool : list A) (r : nat) : list (list A) :=
  match pool, r with
  | _, O => [[]]
  | [], S _ => []
  | x :: rest, S r' =>
      map (cons x) (combinations rest r') ++ combinations rest (S r')
  end.

(** ** The canonical order of the pairs [(i, j)], [i < j < n] *)

(** The pairs of row [i]: [(i, i+1), ..., (i, n-1)]. *)
Definition row_pairs (n i : nat) : list (nat * nat) :=
  map (pair i) (seq (S i) (n - S i)).

(** All pairs, by [i] and then by [j]. *)
Definition canonical_pairs (n : nat) : list (nat * nat) :=
  flat_map (row_pairs n) (seq 0 n).

(** The pair one row and one column further. *)
Definition shift_pair (p : nat * nat) : nat * nat := (S (fst p), S (snd p)).

(** Lexicographic order on index pairs. *)
Definition pair_lt (p q : nat * nat) : Prop :=
  fst p < fst q \/ (fst p = fst q /\ snd p < snd q).

(** Number of entries of the vectorized triangle for [n] categories. *)
Definition n_pairs (n : nat) : nat := n * (n - 1) / 2.

(** Position of the pair [(i, j)], [i < j < n], in the vectorized
    triangle (the formula of SciPy's documentation of [pdist]). *)
Definition condensed_index (n i j : nat) : nat :=
  n * i + j - (i + 2) * (i + 1) / 2.

(** ** The dissimilarity computer *)

(** Modelled from the spec: [scipy.spatial.distance.pdist], which the
    notebook imports and whose body is not part of the repository.
    Section 4.2: the distances over all unordered pairs, pair [(i, j)] for
    [i < j], ordered by [i] then [j]: the first pattern against every later
    one, then the same for the remaining patterns. *)
Fixpoint pdist {A B : Type} (metric : A -> A -> B) (X : list A) : list B :=
  match X with
  | [] => []
  | u :: rest => map (metric u) rest ++ pdist metric rest
  end.

(** [pdist] with a metric that can fail: the first undefined distance
    aborts the whole computation. *)
Definition pdist_checked {A B : Type} (metric : A -> A -> result B) (X : list A)
  : result (list B) :=
  sequence (pdist metric X).

(** ** The square form *)

Section Squareform.

Context {A : Type} (zero : A).

(** Cell [(i, j)] of the square form of the vector [v] for [n] points. *)
Definition square_cell (n : nat) (v : list A) (i j : nat) : A :=
  if i <? j then nth (condensed_index n i j) v zero
  else if j <? i then nth (condensed_index n j i) v zero
  else zero.

(** The side of the square matrix for a vector of [len] entries: the
    [d] with [d * (d - 1) = 2 * len]; the empty vector gives the 1 x 1
    matrix; any other length is refused. *)
Definition matrix_dim (len : nat) : result nat :=
  if len =? 0 then Ok 1
  else
    let d := Nat.sqrt_up (2 * len) in
    if d * (d - 1) =? 2 * len then Ok d else Raise ValueError.

(** The [d] x [d] matrix of these cells, as a list of rows. *)
Definition square_matrix (d : nat) (v : list A) : list (list A) :=
  map (fun i => map (fun j => square_cell d v i j) (seq 0 d)) (seq 0 d).

(** Modelled from the spec: [scipy.spatial.distance.squareform] applied
    to a vector (the notebook calls it, its body is not part of the
    repository).  Section 3: the symmetric N x N matrix with zero diagonal
    whose upper triangle, in canonical order, is the vector. *)
Definition squareform (v : list A) : result (list (list A)) :=
  d <- matrix_dim (length v) ;; Ok (square_matrix d v).

(** Cell [(i, j)] of a matrix given as a list of rows. *)
Definition cell (M : list (list A)) (i j : nat) : result A :=
  row <- getitem M i ;; getitem row j.

(** Modelled from the spec: [squareform] applied to a square matrix,
    the way back of the round trip of section 8: the upper triangle read
    in canonical order.  A matrix that is not square is refused. *)
Definition squareform_vector (M : list (list A)) : result (list A) :=
  let d := length M in
  if forallb (fun row => length row =? d) M
  then sequence (map (fun p => cell M (fst p) (snd p)) (canonical_pairs d))
  else Raise ValueError.

(** A square form of side [n]: every cell is there, the diagonal is
    [zero], and cell (i, j) equals cell (j, i). *)
Definition symmetric_hollow (n : nat) (M : list (list A)) : Prop :=
  length M = n
  /\ (forall i, i < n -> cell M i i = Ok zero)
  /\ (forall i j, i < n -> j < n ->
        exists x, cell M i j = Ok x /\ cell M j i = Ok x).

(** [M[idx][:, idx]]: the rows [idx], then the columns [idx] of each. *)
Definition reindex (M : list (list A)) (idx : list nat) : result (list (list A)) :=
  rows <- take M idx ;;
  sequence (map (fun row => take row idx) rows).

End Squareform.

(** ** Ranks *)

(** A Python or NumPy integer converted to binary64, as it is when it
    meets a float in a product or a quotient: rounded to nearest, exact
    below 2^53.  Lengths and counts are machine integers, below 2^63. *)
Definition float64_of_int (k : nat) : float :=
  of_uint63 (Uint63.of_Z (Z.of_nat k)).

Section Ranks.

Context {A : Type} (ltb : A -> A -> bool).

(** How many entries of [a] are below [x], and how many are not above it. *)
Definition count_lt (a : list A) (x : A) : nat :=
  length (filter (fun y => ltb y x) a).

Definition count_le (a : list A) (x : A) : nat :=
  length (filter (fun y => negb (ltb x y)) a).

(** Twice the rank of [x] in [a].  The entries tied with [x] would take
    the ranks [count_lt + 1 .. count_le]; their average is
    [(count_lt + count_le + 1) / 2]. *)
Definition rank2 (a : list A) (x : A) : nat :=
  count_lt a x + count_le a x + 1.

(** Modelled from the spec: [scipy.stats.rankdata] (imported by the
    notebook, body not part of the repository) with its default method:
    ranks from 1, ties receive the average of the ranks they span
    (section 4.3). *)
Definition rankdata (a : list A) : list Q :=
  map (fun x => Qmake (Z.of_nat (rank2 a x)) 2) a.

(** The rank of [x] as the binary64 number SciPy returns, half the
    integer [count_lt + count_le + 1]. *)
Definition rank64 (a : list A) (x : A) : float :=
  (0.5 * float64_of_int (rank2 a x))%float.

(** Modelled from the spec: the float64 array that [rankdata(a)] returns,
    the ranks of [rankdata] as binary64 numbers. *)
Definition rankdata64 (a : list A) : list float := map (rank64 a) a.

(** The notebook's
    [def rank_percentile(a): return rankdata(a) / len(a) * 100]:
    each rank is divided by the length and the quotient multiplied by 100,
    both in binary64. *)
Definition rank_percentile (a : list A) : list float :=
  map (fun r => (r / float64_of_int (length a) * 100)%float) (rankdata64 a).

End Ranks.

(** The percentile of a rank given as twice its value, among [n]: the
    entry [rank_percentile] computes for it. *)
Definition percentile (n r2 : nat) : float :=
  (0.5 * float64_of_int r2 / float64_of_int n * 100)%float.

(** ** The hand-built model RDMs of the notebook *)

Section SizeModel.

Context {F : Type} (sub : F -> F -> F) (abs : F -> F).

(** One turn of the loop body [rdm_size.append(np.abs(pair[0] - pair[1]))]. *)
Definition rdm_size_step (acc : list F) (pair : list F) : result (list F) :=
  a <- getitem pair 0 ;;
  b <- getitem pair 1 ;;
  Ok (acc ++ [abs (sub a b)]).

(** [rdm_size = []; for pair in combinations(sizes, 2): ...]. *)
Definition rdm_size_of (sizes : list F) : result (list F) :=
  for_each rdm_size_step (combinations sizes 2) [].

End SizeModel.

Module Notebook.

Local Open Scope float_scope.

(** [np.ones(n)]. *)
Definition ones (n : nat) : list float := repeat 1 n.

(** [rdm_animacy = np.ones(len(rdm_vt)); rdm_animacy[8] = .5]. *)
Definition rdm_animacy (rdm_vt : list float) : result (list float) :=
  setitem (ones (length rdm_vt)) 8 0.5.

(** [rdm_tools = np.ones(len(rdm_vt)); rdm_tools[[4, 6, 26]] = .5]. *)
Definition rdm_tools (rdm_vt : list float) : result (list float) :=
  setitems (ones (length rdm_vt)) [4; 6; 26]%nat 0.5.

(** [sizes = [.3, .35, .2, .2, .1, .5, 1, 0]].  The last two entries are
    Python integers; in the subtractions of the loop they behave as the
    floats 1.0 and 0.0, to which they convert exactly. *)
Definition sizes : list float := [0.3; 0.35; 0.2; 0.2; 0.1; 0.5; 1; 0].

(** [rdm_size], with binary64 subtraction and [np.abs]. *)
Definition rdm_size : result (list float) :=
  rdm_size_of PrimFloat.sub PrimFloat.abs sizes.

(** [reorder = [3, 1, 0, 7, 5, 2, 4, 6]]. *)
Definition reorder : list nat := [3; 1; 0; 7; 5; 2; 4; 6]%nat.

End Notebook.

(** ** The plotted cell and the category labels *)

(** [np.unique] on labels: sorted, without repetitions. *)
Fixpoint insert_unique (s : string) (l : list string) : list string :=
  match l with
  | [] => [s]
  | h :: t =>
      match String.compare s h with
      | Lt => s :: l
      | Eq => l
      | Gt => h :: insert_unique s t
      end
  end.

Definition np_unique (l : list string) : list string :=
  fold_right insert_unique [] l.

(** [categories = np.array([c for c in np.unique(stimuli) if c != 'rest'])]. *)
Definition categories (stimuli : list string) : list string :=
  filter (fun c => negb (String.eqb c "rest")) (np_unique stimuli).

Module Plots.

Import Notebook.
Local Open Scope float_scope.

(** The dictionary [rdms], in insertion order. *)
Definition rdms (rdm_vt : list float) : result (list (string * list float)) :=
  a <- rdm_animacy rdm_vt ;;
  t <- rdm_tools rdm_vt ;;
  s <- rdm_size ;;
  Ok [("animacy RDM"%string, a); ("tool RDM"%string, t);
      ("real-world size RDM"%string, s)].

(** The data of one heat map: [squareform(rdms[rdm])[reorder][:, reorder]]. *)
Definition heatmap (rdm : list float) : result (list (list float)) :=
  M <- squareform 0 rdm ;; reindex M reorder.

(** What one call of [sns.heatmap] is given, and the title set on its
    axes. *)
Record heat_map : Type := HeatMap {
  title : string;
  data : list (list float);
  xticklabels : list string;
  yticklabels : list string
}.

(** One turn of the plotting loop: the arguments of [sns.heatmap] are
    evaluated left to right, the data first, then
    [xticklabels=categories[reorder]] and [yticklabels=categories[reorder]];
    any of them may raise. *)
Definition heatmap_of (categories : list string) (rdm : string)
  (v : list float) : result heat_map :=
  d <- heatmap v ;;
  xs <- take categories reorder ;;
  ys <- take categories reorder ;;
  Ok (HeatMap rdm d xs ys).

(** The three heat maps of the cell, in the order of the dictionary. *)
Definition heatmaps (categories : list string) (rdm_vt : list float)
  : result (list heat_map) :=
  d <- rdms rdm_vt ;;
  sequence (map (fun e => heatmap_of categories (fst e) (snd e)) d).

End Plots.

(** ** Distances and rank correlation over the real numbers *)

Module Distance.

Local Open Scope R_scope.

(** A response pattern: one activation estimate per voxel. *)
Definition vector : Type := list R.

Definition sum (u : vector) : R := fold_right Rplus 0 u.

Definition mean (u : vector) : R := sum u / INR (length u).

Definition center (u : vector) : vector := map (fun x => x - mean u) u.

Definition dot (u v : vector) : R :=
  sum (map (fun p => fst p * snd p) (combine u v)).

Definition covariance (u v : vector) : R :=
  dot (center u) (center v) / INR (length u).

Definition variance (u : vector) : R := covariance u u.

Definition same_shape (u v : vector) : bool := (length u =? length v)%nat.

(** Modelled from the spec: the Pearson correlation of two patterns of
    equal dimensionality (the notebook delegates it to SciPy).  Section
    4.2: with a pattern of zero variance the correlation is undefined, and
    that is signalled as an error. *)
Definition pearson (u v : vector) : result R :=
  if negb (same_shape u v) then Raise ValueError
  else if Req_dec_T (variance u) 0 then Raise DegenerateVector
  else if Req_dec_T (variance v) 0 then Raise DegenerateVector
  else Ok (covariance u v / sqrt (variance u * variance v)).

(** Modelled from the spec: correlation distance, 1 minus the Pearson
    correlation of the two vectors (section 4.2). *)
Definition correlation (u v : vector) : result R :=
  r <- pearson u v ;; Ok (1 - r).

(** Modelled from the spec: Euclidean distance, the L2 norm of the
    difference (section 4.2). *)
Definition euclidean (u v : vector) : result R :=
  if negb (same_shape u v) then Raise ValueError
  else Ok (sqrt (sum (map (fun p => (fst p - snd p) * (fst p - snd p)) (combine u v)))).

(** The distance kinds of section 4.2. *)
Inductive metric : Type :=
| Correlation
| Euclidean.

Definition distance (m : metric) : vector -> vector -> result R :=
  match m with
  | Correlation => correlation
  | Euclidean => euclidean
  end.

(** Modelled from the spec: the dissimilarity computer of section 4.2,
    [pdist(X, kind)]: the vectorized distances of all pairs, or the first
    error met. *)
Definition rdm (m : metric) (X : list vector) : result (list R) :=
  pdist_checked (distance m) X.

Definition Rltb (x y : R) : bool := if Rlt_dec x y then true else false.

(** The ranks of an array, as reals. *)
Definition ranks (a : vector) : vector := map Q2R (rankdata Rltb a).

(** Modelled from the spec: the comparator of section 4.3,
    [scipy.stats.spearmanr] without its significance estimate: the
    Pearson correlation of the ranks, ties ranked by their average. *)
Definition spearmanr (a b : vector) : result R :=
  pearson (ranks a) (ranks b).

End Distance.

(** ** Which categories an entry of the vectorized triangle compares *)

(** The labels of the [k]-th canonical pair of the categories [cats]. *)
Definition pair_labels (cats : list string) (k : nat) : option (string * string) :=
  match nth_error (canonical_pairs (length cats)) k with
  | Some (i, j) =>
      match nth_error cats i, nth_error cats j with
      | Some a, Some b => Some (a, b)
      | _, _ => None
      end
  | None => None
  end.

(** ** The binary64 value of a float, as a rational *)

(** [m * 2^e], the value of a finite binary64 number; [None] for
    infinities and NaN. *)
Definition float_value (x : float) : option Q :=
  match Prim2SF x with
  | S754_zero _ => Some 0%Q
  | S754_finite s m e =>
      let mag := (inject_Z (Z.pos m) * Qpower 2 e)%Q in
      Some (if s then Qopp mag else mag)
  | _ => None
  end.

(** ** Sorted unique values and boolean masks *)

Section Unique.

Context {A : Type} (cmp : A -> A -> comparison).

(** Insertion into a sorted list without repetitions, for any three-way
    comparison. *)
Fixpoint insert_unique_by (x : A) (l : list A) : list A :=
  match l with
  | [] => [x]
  | h :: t =>
      match cmp x h with
      | Lt => x :: l
      | Eq => l
      | Gt => h :: insert_unique_by x t
      end
  end.

(** [np.unique]: the sorted unique values. *)
Definition unique_by (l : list A) : list A :=
  fold_right insert_unique_by [] l.

End Unique.

(** [a[mask]] with a boolean array [mask]: the entries of [a] where the
    mask holds, in order; NumPy refuses a mask of another length. *)
Fixpoint mask_select {A : Type} (a : list A) (mask : list bool)
  : result (list A) :=
  match a, mask with
  | [], [] => Ok []
  | x :: a', b :: mask' =>
      r <- mask_select a' mask' ;; Ok (if b then x :: r else r)
  | _, _ => Raise IndexError
  end.

(** [runs == run], elementwise. *)
Definition eq_mask (runs : list Z) (run : Z) : list bool :=
  map (fun r => Z.eqb r run) runs.


(** ** The split of the scan by run and the per-run events *)

Section Runs.

Context {V : Type}.

(** [func_runs = []; for run in np.unique(runs):
     func_runs.append(index_img(func_file, runs == run))],
    the functional image being the list of its volumes and [index_img]
    with a boolean index keeping the volumes where the index holds. *)
Definition func_runs (func_file : list V) (runs : list Z)
  : result (list (list V)) :=
  for_each
    (fun acc run =>
       img <- mask_select func_file (eq_mask runs run) ;; Ok (acc ++ [img]))
    (unique_by Z.compare runs) [].

End Runs.

(** A row of the events table. *)
Record event (F : Type) : Type := Event {
  onset : F;
  trial_type : string;
  duration : F
}.

Arguments Event {F} onset trial_type duration.
Arguments onset {F} e.
Arguments trial_type {F} e.
Arguments duration {F} e.

Section Design.

Context {F D : Type} (mul : F -> F -> F) (of_int : nat -> F) (tr : F).
Context (make_first_level_design_matrix : list F -> list (event F) -> D).

(** [tr * np.arange(n_trs)]. *)
Definition onsets_of (n_trs : nat) : list F :=
  map (fun k => mul tr (of_int k)) (seq 0 n_trs).

(** [pd.DataFrame({'onset': ..., 'trial_type': ..., 'duration': ...})]:
    one row per position; columns of unequal length are refused. *)
Definition events_frame (onsets : list F) (labels : list string)
  (durations : list F) : result (list (event F)) :=
  if (length onsets =? length labels) && (length labels =? length durations)
  then Ok (map (fun p => Event (fst (fst p)) (snd (fst p)) (snd p))
               (combine (combine onsets labels) durations))
  else Raise ValueError.

(** [events_all[events_all['trial_type'] != 'rest']] for one run. *)
Definition events_of_run (stimuli_run : list string) : result (list (event F)) :=
  let n_trs := length stimuli_run in
  events_all <- events_frame (onsets_of n_trs) stimuli_run (repeat tr n_trs) ;;
  Ok (filter (fun e => negb (String.eqb (trial_type e) "rest")) events_all).

(** The body of the loop over runs: the design matrix of one run, built
    by nilearn from the frame times (all onsets) and the events. *)
Definition design_of_run (stimuli_run : list string) : result D :=
  events <- events_of_run stimuli_run ;;
  Ok (make_first_level_design_matrix (onsets_of (length stimuli_run)) events).


End Design.

Module Glm.

Local Open Scope float_scope.

(** [tr = 2.5]. *)
Definition tr : float := 2.5.

(** An integer of [np.arange] as the float it multiplies to. *)
Definition float_of_nat (k : nat) : float :=
  of_uint63 (Uint63.of_Z (Z.of_nat k)).

(** The events of one run of the notebook, in binary64. *)
Definition events (stimuli_run : list string) : result (list (event float)) :=
  events_of_run PrimFloat.mul float_of_nat tr stimuli_run.

End Glm.

(** ** The reordered labels *)

(** [categories[reorder]], which labels the reordered plots. *)
Definition reordered_categories (cats : list string) : result (list string) :=
  take cats Notebook.reorder.

(** ** Binary64 numbers between two bounds *)



(* ================================================================== *)
(** * Part II: properties *)
(* ================================================================== *)

(** ** The error monad *)

Lemma sequence_ext_Ok {A B : Type} (g : A -> result B) (f : A -> B) (l : list A) :
  (forall x, In x l -> g x = Ok (f x)) ->
  sequence (map g l) = Ok (map f l).
Proof.
  induction l as [|x l IH]; intros H; simpl; [reflexivity|].
  rewrite (H x (or_introl eq_refl)); simpl.
  rewrite IH; [reflexivity|].
  intros y Hy; apply H; right; exact Hy.
Qed.

Lemma sequence_length {A : Type} (ms : list (result A)) (r : list A) :
  sequence ms = Ok r -> length r = length ms.
Proof.
  revert r; induction ms as [|m ms IH]; simpl; intros r H.
  - injection H as <-; reflexivity.
  - destruct m as [a|e]; simpl in H; [|discriminate].
    destruct (sequence ms) as [r'|e]; simpl in H; [|discriminate].
    injection H as <-; simpl; f_equal; apply IH; reflexivity.
Qed.

Lemma getitem_nth {A : Type} (l : list A) (i : nat) (d : A) :
  i < length l -> getitem l i = Ok (nth i l d).
Proof.
  intros H; unfold getitem.
  rewrite (nth_error_nth' l d H); reflexivity.
Qed.

(** ** Triangular numbers *)

Lemma n_pairs_S (n : nat) : n_pairs (S n) = n_pairs n + n.
Proof.
  unfold n_pairs; destruct n as [|m]; [reflexivity|].
  replace (S (S m) * (S (S m) - 1)) with (S m * (S m - 1) + S m * 2)
    by (simpl; rewrite Nat.sub_0_r; ring).
  apply Nat.div_add; discriminate.
Qed.

Lemma n_pairs_double (n : nat) : 2 * n_pairs n = n * (n - 1).
Proof.
  induction n as [|n IH]; [reflexivity|].
  rewrite n_pairs_S.
  destruct n as [|m]; [reflexivity|].
  simpl in IH |- *; rewrite Nat.sub_0_r in *; lia.
Qed.

(** ** The canonical order *)

Lemma row_pairs_shift (n i : nat) :
  row_pairs (S n) (S i) = map shift_pair (row_pairs n i).
Proof.
  unfold row_pairs.
  change (S n - S (S i)) with (n - S i).
  rewrite <- (seq_shift (n - S i) (S i)), !map_map; reflexivity.
Qed.

Lemma canonical_pairs_S (n : nat) :
  canonical_pairs (S n)
  = map (pair 0) (seq 1 n) ++ map shift_pair (canonical_pairs n).
Proof.
  unfold canonical_pairs.
  change (seq 0 (S n)) with (0 :: seq 1 n).
  cbn [flat_map]; f_equal.
  - unfold row_pairs; rewrite Nat.sub_succ, Nat.sub_0_r; reflexivity.
  - rewrite <- seq_shift.
    induction (seq 0 n) as [|i l IH]; [reflexivity|].
    cbn [map flat_map]; rewrite map_app, row_pairs_shift, IH; reflexivity.
Qed.

Lemma canonical_pairs_length (n : nat) :
  length (canonical_pairs n) = n_pairs n.
Proof.
  induction n as [|n IH]; [reflexivity|].
  rewrite canonical_pairs_S, length_app, !length_map, length_seq, IH, n_pairs_S.
  lia.
Qed.

Lemma canonical_pairs_In (n i j : nat) :
  In (i, j) (canonical_pairs n) <-> i < j /\ j < n.
Proof.
  unfold canonical_pairs, row_pairs; rewrite in_flat_map; split.
  - intros (x & Hx & Hin).
    apply in_map_iff in Hin; destruct Hin as (y & Heq & Hy).
    injection Heq as <- <-.
    apply in_seq in Hx; apply in_seq in Hy; lia.
  - intros [Hij Hjn]; exists i; split.
    + apply in_seq; lia.
    + apply in_map, in_seq; lia.
Qed.

Lemma StronglySorted_app {A : Type} (R : A -> A -> Prop) (l1 l2 : list A) :
  StronglySorted R l1 -> StronglySorted R l2 ->
  (forall x y, In x l1 -> In y l2 -> R x y) ->
  StronglySorted R (l1 ++ l2).
Proof.
  intros H1 H2 H12; induction H1 as [|a l Hl IH Ha]; simpl; [exact H2|].
  constructor.
  - apply IH; intros x y Hx Hy; apply H12; [right|]; assumption.
  - apply Forall_app; split; [exact Ha|].
    apply Forall_forall; intros y Hy; apply H12; [left; reflexivity|exact Hy].
Qed.

Lemma StronglySorted_map {A B : Type} (R : A -> A -> Prop) (Q : B -> B -> Prop)
  (f : A -> B) (l : list A) :
  (forall x y, R x y -> Q (f x) (f y)) ->
  StronglySorted R l -> StronglySorted Q (map f l).
Proof.
  intros Hf H; induction H as [|a l Hl IH Ha]; simpl; constructor.
  - exact IH.
  - apply Forall_map; revert Ha; apply Forall_impl; intros b; apply Hf.
Qed.

Lemma StronglySorted_seq (a len : nat) : StronglySorted lt (seq a len).
Proof.
  revert a; induction len as [|len IH]; intros a; simpl; constructor.
  - apply IH.
  - apply Forall_forall; intros y Hy; apply in_seq in Hy; lia.
Qed.

Lemma canonical_pairs_sorted (n : nat) :
  StronglySorted pair_lt (canonical_pairs n).
Proof.
  induction n as [|n IH]; [constructor|].
  rewrite canonical_pairs_S; apply StronglySorted_app.
  - apply StronglySorted_map with (R := lt); [|apply StronglySorted_seq].
    intros x y Hxy; right; simpl; split; [reflexivity|exact Hxy].
  - apply StronglySorted_map with (R := pair_lt); [|exact IH].
    intros [a b] [c d]; unfold pair_lt; simpl; lia.
  - intros x y Hx Hy.
    apply in_map_iff in Hx; destruct Hx as (j & <- & _).
    apply in_map_iff in Hy; destruct Hy as (p & <- & _).
    left; simpl; lia.
Qed.

(** The positions of the canonical pairs in the vectorized triangle are
    0, 1, 2, ... in this order. *)
Lemma map_affine_seq (c t a len : nat) :
  t <= c + a ->
  map (fun j => c + j - t) (seq a len) = seq (c + a - t) len.
Proof.
  revert a; induction len as [|len IH]; intros a H; simpl; [reflexivity|].
  f_equal; rewrite IH by lia; f_equal; lia.
Qed.

Lemma condensed_index_rows (n k : nat) :
  k <= n ->
  map (fun p => condensed_index n (fst p) (snd p))
      (flat_map (row_pairs n) (seq 0 k))
  = seq 0 (n * k - n_pairs (k + 1)).
Proof.
  induction k as [|k IH]; intros Hk; [rewrite Nat.mul_0_r; reflexivity|].
  rewrite seq_S, flat_map_app, map_app, IH by lia.
  cbn [flat_map]; rewrite app_nil_r.
  unfold row_pairs; rewrite map_map; cbn [fst snd].
  assert (HT1 : 2 * n_pairs (k + 1) = (k + 1) * k)
    by (rewrite n_pairs_double; f_equal; lia).
  assert (HT2 : 2 * n_pairs (k + 2) = (k + 2) * (k + 1))
    by (rewrite n_pairs_double; f_equal; lia).
  assert (E : forall j, condensed_index n k j = n * k + j - n_pairs (k + 2)).
  { intros j; unfold condensed_index, n_pairs; do 3 f_equal; lia. }
  rewrite (map_ext _ _ E), map_affine_seq by nia.
  replace (S k + 1) with (k + 2) by lia.
  replace (n * S k - n_pairs (k + 2))
    with ((n * k - n_pairs (k + 1)) + (n - S k)) by nia.
  rewrite seq_app; f_equal; f_equal; nia.
Qed.

Lemma condensed_index_canonical (n : nat) :
  map (fun p => condensed_index n (fst p) (snd p)) (canonical_pairs n)
  = seq 0 (n_pairs n).
Proof.
  unfold canonical_pairs; rewrite condensed_index_rows by lia.
  f_equal.
  assert (2 * n_pairs (n + 1) = (n + 1) * n)
    by (rewrite n_pairs_double; f_equal; lia).
  pose proof (n_pairs_double n) as H2.
  destruct n as [|m]; [reflexivity|].
  simpl in H2; rewrite Nat.sub_0_r in H2; nia.
Qed.

Lemma canonical_pairs_nth (n i j : nat) :
  i < j -> j < n ->
  nth_error (canonical_pairs n) (condensed_index n i j) = Some (i, j)
  /\ condensed_index n i j < n_pairs n.
Proof.
  intros Hij Hjn.
  assert (Hin : In (i, j) (canonical_pairs n)) by (apply canonical_pairs_In; lia).
  apply In_nth_error in Hin; destruct Hin as [k Hk].
  assert (Hlt : k < n_pairs n).
  { rewrite <- canonical_pairs_length; apply nth_error_Some; congruence. }
  pose proof (map_nth_error (fun p => condensed_index n (fst p) (snd p)) k
                (canonical_pairs n) Hk) as Hm.
  rewrite condensed_index_canonical in Hm; cbn [fst snd] in Hm.
  rewrite (nth_error_nth' _ 0) in Hm by (rewrite length_seq; exact Hlt).
  rewrite seq_nth in Hm by exact Hlt.
  injection Hm as Hm; simpl in Hm; rewrite <- Hm; split; assumption.
Qed.

(** ** [pdist] and the loop over [combinations] follow the canonical order *)

Lemma map_nth_tail {A : Type} (u : A) (rest : list A) (d : A) :
  map (fun j => nth j (u :: rest) d) (seq 1 (length rest)) = rest.
Proof.
  rewrite <- seq_shift, map_map; cbn [nth].
  induction rest as [|x rest IH]; [reflexivity|].
  cbn [length seq map nth]; f_equal.
  rewrite <- seq_shift, map_map; exact IH.
Qed.

Lemma map_nth_all {A : Type} (l : list A) (d : A) :
  map (fun k => nth k l d) (seq 0 (length l)) = l.
Proof.
  destruct l as [|u rest]; [reflexivity|].
  cbn [length seq map nth]; f_equal; apply map_nth_tail.
Qed.

Lemma pdist_canonical {A B : Type} (metric : A -> A -> B) (d : A) (X : list A) :
  pdist metric X
  = map (fun p => metric (nth (fst p) X d) (nth (snd p) X d))
        (canonical_pairs (length X)).
Proof.
  induction X as [|u rest IH]; [reflexivity|].
  cbn [pdist length]; rewrite canonical_pairs_S, map_app, !map_map.
  f_equal.
  - cbn [fst snd]; change (nth 0 (u :: rest) d) with u.
    rewrite <- (map_nth_tail u rest d) at 1; rewrite map_map; reflexivity.
  - rewrite IH; apply map_ext; intros [i j]; reflexivity.
Qed.

Lemma pdist_length {A B : Type} (metric : A -> A -> B) (X : list A) :
  length (pdist metric X) = n_pairs (length X).
Proof.
  induction X as [|u rest IH]; [reflexivity|].
  cbn [pdist length]; rewrite length_app, length_map, IH, n_pairs_S; lia.
Qed.

Lemma pdist_map {A B C : Type} (g : A -> A -> B) (f : B -> C) (X : list A) :
  pdist (fun a b => f (g a b)) X = map f (pdist g X).
Proof.
  induction X as [|u rest IH]; [reflexivity|].
  cbn [pdist]; rewrite map_app, map_map, IH; reflexivity.
Qed.

Lemma combinations_1 {A : Type} (l : list A) :
  combinations l 1 = map (fun x => [x]) l.
Proof.
  induction l as [|x l IH]; [reflexivity|].
  cbn [combinations]; rewrite IH.
  destruct l; reflexivity.
Qed.

Lemma combinations_2 {A : Type} (l : list A) :
  combinations l 2 = pdist (fun a b => [a; b]) l.
Proof.
  induction l as [|x l IH]; [reflexivity|].
  cbn [combinations pdist]; rewrite combinations_1, map_map, IH; reflexivity.
Qed.

Lemma rdm_size_loop {F : Type} (sub : F -> F -> F) (abs : F -> F)
  (ps : list (F * F)) (acc : list F) :
  for_each (rdm_size_step sub abs) (map (fun p => [fst p; snd p]) ps) acc
  = Ok (acc ++ map (fun p => abs (sub (fst p) (snd p))) ps).
Proof.
  revert acc; induction ps as [|p ps IH]; intros acc; simpl.
  - rewrite app_nil_r; reflexivity.
  - rewrite IH, <- app_assoc; reflexivity.
Qed.

Lemma rdm_size_of_pdist {F : Type} (sub : F -> F -> F) (abs : F -> F)
  (sizes : list F) :
  rdm_size_of sub abs sizes = Ok (pdist (fun a b => abs (sub a b)) sizes).
Proof.
  unfold rdm_size_of.
  rewrite combinations_2.
  assert (E : pdist (fun a b => [a; b]) sizes
              = map (fun p => [fst p; snd p]) (pdist pair sizes))
    by (rewrite <- pdist_map; reflexivity).
  rewrite E, rdm_size_loop; cbn [app]; f_equal.
  rewrite <- pdist_map; reflexivity.
Qed.

(** ** Item assignment *)

Lemma setitem_lt {A : Type} (l : list A) (i : nat) (v : A) :
  i < length l ->
  exists r, setitem l i v = Ok r /\ length r = length l
            /\ forall k d, nth k r d = if k =? i then v else nth k l d.
Proof.
  revert i; induction l as [|h t IH]; intros i Hi; simpl in Hi; [lia|].
  destruct i as [|i].
  - exists (v :: t); repeat split; intros [|k] d; reflexivity.
  - destruct (IH i ltac:(lia)) as (r & E & Hlen & Hnth).
    exists (h :: r); simpl; rewrite E; simpl; repeat split.
    + f_equal; exact Hlen.
    + intros [|k] d; [reflexivity|]; simpl; apply Hnth.
Qed.

Lemma setitem_ge {A : Type} (l : list A) (i : nat) (v : A) :
  length l <= i -> setitem l i v = Raise IndexError.
Proof.
  revert i; induction l as [|h t IH]; intros i Hi; [destruct i; reflexivity|].
  destruct i as [|i]; simpl in Hi; [lia|].
  simpl; rewrite IH by lia; reflexivity.
Qed.

Lemma rdm_animacy_length (rdm_vt : list float) :
  match Notebook.rdm_animacy rdm_vt with
  | Ok a => length a = length rdm_vt
  | Raise _ => length rdm_vt <= 8
  end.
Proof.
  unfold Notebook.rdm_animacy, Notebook.ones.
  destruct (le_lt_dec (length rdm_vt) 8) as [H|H].
  - rewrite setitem_ge by (rewrite repeat_length; exact H); exact H.
  - destruct (setitem_lt (repeat 1%float (length rdm_vt)) 8 0.5%float)
      as (r & -> & Hlen & _); [rewrite repeat_length; exact H|].
    rewrite Hlen, repeat_length; reflexivity.
Qed.

Lemma rdm_tools_length (rdm_vt : list float) :
  match Notebook.rdm_tools rdm_vt with
  | Ok t => length t = length rdm_vt
  | Raise _ => length rdm_vt <= 26
  end.
Proof.
  unfold Notebook.rdm_tools, Notebook.ones, setitems; cbn [for_each].
  set (l := repeat 1%float (length rdm_vt)).
  assert (Hl : length l = length rdm_vt) by apply repeat_length.
  destruct (le_lt_dec (length l) 4) as [H4|H4].
  { rewrite setitem_ge by exact H4; simpl; lia. }
  destruct (setitem_lt l 4 0.5%float H4) as (r1 & -> & L1 & _); cbn [bind].
  destruct (le_lt_dec (length r1) 6) as [H6|H6].
  { rewrite setitem_ge by exact H6; simpl; lia. }
  destruct (setitem_lt r1 6 0.5%float H6) as (r2 & -> & L2 & _); cbn [bind].
  destruct (le_lt_dec (length r2) 26) as [H26|H26].
  { rewrite setitem_ge by exact H26; simpl; lia. }
  destruct (setitem_lt r2 26 0.5%float H26) as (r3 & -> & L3 & _); cbn [bind].
  lia.
Qed.

Lemma rdm_size_length :
  exists r, Notebook.rdm_size = Ok r
            /\ length Notebook.sizes = 8 /\ length r = 28.
Proof.
  unfold Notebook.rdm_size; rewrite rdm_size_of_pdist.
  eexists; split; [reflexivity|]; split; [reflexivity|].
  rewrite pdist_length; reflexivity.
Qed.

(** C1.  The vectorized dissimilarity array over N patterns has exactly
    N*(N-1)/2 entries ([n_pairs N]): the output of [pdist] for any metric,
    the array of the dissimilarity computer whenever it yields one, and
    the size-model RDM built by the loop over [combinations(sizes, 2)] for
    any list of sizes; the notebook's [rdm_size], over 8 sizes, has 28
    entries.  The animacy and tool RDMs, sized after a neural RDM over N
    categories, have N*(N-1)/2 entries as well (they are not built at all
    when that is too short for the positions they set).  For N = 8 the
    count is 28, for N = 96 it is 4560. *)
Theorem rdm_entry_count :
  (forall (A B : Type) (metric : A -> A -> B) (X : list A),
      length (pdist metric X) = n_pairs (length X))
  /\ (forall (m : Distance.metric) (X : list Distance.vector),
         match Distance.rdm m X with
         | Ok r => length r = n_pairs (length X)
         | Raise _ => True
         end)
  /\ (forall (F : Type) (sub : F -> F -> F) (abs : F -> F) (l : list F),
         exists r, rdm_size_of sub abs l = Ok r
                   /\ length r = n_pairs (length l))
  /\ (exists r, Notebook.rdm_size = Ok r
                /\ length Notebook.sizes = 8 /\ length r = 28)
  /\ (forall (n : nat) (rdm_vt : list float),
         length rdm_vt = n_pairs n ->
         match Notebook.rdm_animacy rdm_vt with
         | Ok a => length a = n_pairs n
         | Raise _ => n_pairs n <= 8
         end)
  /\ (forall (n : nat) (rdm_vt : list float),
         length rdm_vt = n_pairs n ->
         match Notebook.rdm_tools rdm_vt with
         | Ok t => length t = n_pairs n
         | Raise _ => n_pairs n <= 26
         end)
  /\ (forall n, n_pairs n = n * (n - 1) / 2)
  /\ n_pairs 8 = 28 /\ n_pairs 96 = 4560.
Proof.
  split; [intros; apply pdist_length|].
  split.
  { intros m X; unfold Distance.rdm, pdist_checked.
    destruct (sequence _) as [r|e] eqn:E; [|exact I].
    rewrite (sequence_length _ _ E); apply pdist_length. }
  split.
  { intros F sub abs l; eexists; split; [apply rdm_size_of_pdist|].
    apply pdist_length. }
  split; [exact rdm_size_length|].
  split.
  { intros n rdm_vt <-; apply rdm_animacy_length. }
  split.
  { intros n rdm_vt <-; apply rdm_tools_length. }
  repeat split.
Qed.

Lemma rdm_entry_count_witness :
  match Notebook.rdm_animacy (repeat 0%float 28) with
  | Ok a => length a = n_pairs 8
  | Raise _ => n_pairs 8 <= 8
  end.
Proof.
  exact (proj1 (proj2 (proj2 (proj2 (proj2 rdm_entry_count))))
           8 (repeat 0%float 28) eq_refl).
Defined.

(** C3.  The vectorized distances enumerate the unordered pairs in the
    canonical order: [canonical_pairs n] lists exactly the pairs (i, j)
    with i < j < n, strictly increasing by i and then by j, pair (i, j)
    sitting at position [condensed_index n i j]; the k-th entry of [pdist]
    is the distance of the k-th pair; and the loop over
    [combinations(sizes, 2)] puts |sizes[i] - sizes[j]| at the place of the
    pair (i, j), for any list of sizes and for the notebook's. *)
Theorem pairs_in_canonical_order :
  (forall n, StronglySorted pair_lt (canonical_pairs n))
  /\ (forall n i j, In (i, j) (canonical_pairs n) <-> i < j /\ j < n)
  /\ (forall n, map (fun p => condensed_index n (fst p) (snd p))
                    (canonical_pairs n) = seq 0 (n_pairs n))
  /\ (forall (A B : Type) (metric : A -> A -> B) (d : A) (X : list A),
         pdist metric X
         = map (fun p => metric (nth (fst p) X d) (nth (snd p) X d))
               (canonical_pairs (length X)))
  /\ (forall (F : Type) (sub : F -> F -> F) (abs : F -> F) (d : F)
             (sizes : list F),
         rdm_size_of sub abs sizes
         = Ok (map (fun p => abs (sub (nth (fst p) sizes d) (nth (snd p) sizes d)))
                   (canonical_pairs (length sizes))))
  /\ Notebook.rdm_size
     = Ok (map (fun p => PrimFloat.abs
                           (PrimFloat.sub (nth (fst p) Notebook.sizes 0%float)
                                          (nth (snd p) Notebook.sizes 0%float)))
               (canonical_pairs 8)).
Proof.
  split; [exact canonical_pairs_sorted|].
  split; [exact canonical_pairs_In|].
  split; [exact condensed_index_canonical|].
  split; [intros; apply pdist_canonical|].
  split.
  - intros F sub abs d sizes.
    rewrite rdm_size_of_pdist; f_equal.
    apply (pdist_canonical (fun a b => abs (sub a b))).
  - reflexivity.
Qed.

(** ** The first entry of the size model *)

(** The size model's first entry is not the binary64 number written
    [0.05]: the subtraction [0.3 - 0.35] is carried out on binary64
    numbers. *)
Lemma rdm_size_first_entry_is_not_0_05 :
  ~ (exists r, Notebook.rdm_size = Ok r /\ nth_error r 0 = Some 0.05%float).
Proof.
  intros (r & Hr & H0).
  assert (E : match Notebook.rdm_size with
              | Ok (x :: _) => PrimFloat.eqb x 0.05
              | _ => false
              end = true).
  { rewrite Hr; destruct r as [|x r]; [discriminate H0|].
    cbn [nth_error] in H0; injection H0 as ->; reflexivity. }
  vm_compute in E; discriminate.
Qed.

(** C7 (amended).  For sizes [.3, .35, .2, .2, .1, .5, 1, 0] the first
    entry of the size model belongs to the first canonical pair (0, 1) and
    is the binary64 result of |0.3 - 0.35|, that is 0x1.9999999999998p-5
    (printed 0.04999999999999999 by Python).  It equals 0.05 only up to
    rounding: its exact value is 0.05 - 1/(5 * 2^54), and it is not the
    binary64 number nearest to 0.05. *)
Theorem rdm_size_first_entry :
  nth_error (canonical_pairs 8) 0 = Some (0, 1)
  /\ nth_error Notebook.sizes 0 = Some 0.3%float
  /\ nth_error Notebook.sizes 1 = Some 0.35%float
  /\ exists r x q,
      Notebook.rdm_size = Ok r
      /\ nth_error r 0 = Some x
      /\ x = PrimFloat.abs (PrimFloat.sub 0.3 0.35)
      /\ x = 0x1.9999999999998p-5%float
      /\ PrimFloat.eqb x 0.05 = false
      /\ float_value x = Some q
      /\ (q == (1 # 20) - (1 # 90071992547409920))%Q.
Proof.
  repeat split.
  eexists _, _, _; repeat split.
Qed.

(** ** The binary model RDMs *)

(** C9.  With the eight alphabetically ordered categories and a neural
    RDM [rdm_vt] over them, the animacy and tool RDMs are built, have the
    length of [rdm_vt], and hold only the values 1 and 0.5: the animacy
    RDM is 0.5 at index 8 alone, which is the cat-face pair, and the tool
    RDM is 0.5 at indices 4, 6 and 26 alone (bottle-scissors, bottle-shoe,
    scissors-shoe); every other entry is 1. *)
Theorem model_rdm_entries (stimuli : list string) (rdm_vt : list float) :
  categories stimuli
  = ["bottle"; "cat"; "chair"; "face"; "house"; "scissors"; "scrambledpix";
     "shoe"]%string ->
  length rdm_vt = n_pairs (length (categories stimuli)) ->
  exists a t,
    Notebook.rdm_animacy rdm_vt = Ok a
    /\ Notebook.rdm_tools rdm_vt = Ok t
    /\ length a = length rdm_vt
    /\ length t = length rdm_vt
    /\ Forall (fun x => x = 1%float \/ x = 0.5%float) a
    /\ Forall (fun x => x = 1%float \/ x = 0.5%float) t
    /\ (forall k, k < length rdm_vt ->
          nth_error a k = Some (if k =? 8 then 0.5%float else 1%float))
    /\ (forall k, k < length rdm_vt ->
          nth_error t k
          = Some (if (k =? 4) || (k =? 6) || (k =? 26)
                  then 0.5%float else 1%float))
    /\ pair_labels (categories stimuli) 8 = Some ("cat", "face")%string
    /\ pair_labels (categories stimuli) 4 = Some ("bottle", "scissors")%string
    /\ pair_labels (categories stimuli) 6 = Some ("bottle", "shoe")%string
    /\ pair_labels (categories stimuli) 26 = Some ("scissors", "shoe")%string.
Proof.
  intros Hcat Hlen; rewrite Hcat in *.
  change (n_pairs _) with 28 in Hlen.
  unfold Notebook.rdm_animacy, Notebook.rdm_tools; rewrite Hlen.
  eexists _, _.
  split; [reflexivity|]. split; [reflexivity|].
  split; [reflexivity|]. split; [reflexivity|].
  split.
  { repeat (constructor; [first [left; reflexivity | right; reflexivity]|]).
    constructor. }
  split.
  { repeat (constructor; [first [left; reflexivity | right; reflexivity]|]).
    constructor. }
  split.
  { intros k Hk.
    do 28 (destruct k as [|k]; [reflexivity|]); lia. }
  split.
  { intros k Hk.
    do 28 (destruct k as [|k]; [reflexivity|]); lia. }
  repeat split.
Qed.

Lemma model_rdm_entries_witness :
  exists a t,
    Notebook.rdm_animacy (repeat 0%float 28) = Ok a
    /\ Notebook.rdm_tools (repeat 0%float 28) = Ok t
    /\ nth_error a 8 = Some 0.5%float
    /\ nth_error t 26 = Some 0.5%float
    /\ pair_labels
         (categories
            ["rest"; "scissors"; "scissors"; "rest"; "face"; "rest"; "cat";
             "rest"; "shoe"; "rest"; "house"; "rest"; "scrambledpix"; "rest";
             "bottle"; "rest"; "chair"; "rest"]%string) 8
       = Some ("cat", "face")%string.
Proof.
  destruct (model_rdm_entries
              ["rest"; "scissors"; "scissors"; "rest"; "face"; "rest"; "cat";
               "rest"; "shoe"; "rest"; "house"; "rest"; "scrambledpix"; "rest";
               "bottle"; "rest"; "chair"; "rest"]%string
              (repeat 0%float 28) eq_refl eq_refl)
    as (a & t & Ha & Ht & _ & _ & _ & _ & Hka & Hkt & Hp & _).
  exists a, t; repeat split; try assumption.
  - apply (Hka 8); simpl; lia.
  - apply (Hkt 26); simpl; lia.
Defined.

(** ** The square form *)

Lemma nth_error_map_seq {B : Type} (f : nat -> B) (d i : nat) :
  i < d -> nth_error (map f (seq 0 d)) i = Some (f i).
Proof.
  intros H; rewrite nth_error_map.
  rewrite (nth_error_nth' (seq 0 d) 0) by (rewrite length_seq; exact H).
  rewrite seq_nth by exact H; reflexivity.
Qed.

Lemma matrix_dim_n_pairs (n : nat) :
  matrix_dim (n_pairs n) = Ok (Nat.max n 1).
Proof.
  unfold matrix_dim.
  pose proof (n_pairs_double n) as H2.
  destruct n as [|[|m]]; [reflexivity|reflexivity|].
  assert (Hpos : n_pairs (S (S m)) <> 0).
  { intros E; rewrite E in H2; simpl in H2; lia. }
  apply Nat.eqb_neq in Hpos; rewrite Hpos.
  assert (Hs : Nat.sqrt_up (2 * n_pairs (S (S m))) = S (S m)).
  { apply Nat.sqrt_up_unique; [lia|].
    rewrite H2; simpl Nat.pred; simpl Nat.sub; nia. }
  cbv zeta; rewrite Hs.
  replace (S (S m) * (S (S m) - 1) =? 2 * n_pairs (S (S m))) with true
    by (symmetry; apply Nat.eqb_eq; lia).
  rewrite Nat.max_l by lia; reflexivity.
Qed.

Lemma n_pairs_max (n : nat) : n_pairs (Nat.max n 1) = n_pairs n.
Proof. destruct n as [|[|m]]; reflexivity. Qed.

Section SquareformFacts.

Context {A : Type} (zero : A).

Lemma square_matrix_length (d : nat) (v : list A) :
  length (square_matrix zero d v) = d.
Proof. unfold square_matrix; rewrite length_map, length_seq; reflexivity. Qed.

Lemma square_matrix_rows (d : nat) (v : list A) :
  forallb (fun row => length row =? d) (square_matrix zero d v) = true.
Proof.
  apply forallb_forall; intros row Hrow.
  apply in_map_iff in Hrow; destruct Hrow as (i & <- & _).
  rewrite length_map, length_seq; apply Nat.eqb_refl.
Qed.

Lemma square_matrix_cell (d : nat) (v : list A) (i j : nat) :
  i < d -> j < d ->
  cell (square_matrix zero d v) i j = Ok (square_cell zero d v i j).
Proof.
  intros Hi Hj; unfold cell, getitem, square_matrix.
  rewrite (nth_error_map_seq _ d i Hi); cbn [bind].
  rewrite (nth_error_map_seq _ d j Hj); reflexivity.
Qed.

Lemma square_cell_sym (d : nat) (v : list A) (i j : nat) :
  square_cell zero d v i j = square_cell zero d v j i.
Proof.
  unfold square_cell.
  destruct (i <? j) eqn:E1, (j <? i) eqn:E2; try reflexivity.
  apply Nat.ltb_lt in E1, E2; lia.
Qed.

Lemma square_cell_diag (d : nat) (v : list A) (i : nat) :
  square_cell zero d v i i = zero.
Proof. unfold square_cell; rewrite Nat.ltb_irrefl; reflexivity. Qed.

Lemma square_cell_upper (d : nat) (v : list A) (i j : nat) :
  i < j -> square_cell zero d v i j = nth (condensed_index d i j) v zero.
Proof.
  intros H; unfold square_cell.
  apply Nat.ltb_lt in H; rewrite H; reflexivity.
Qed.

Lemma square_matrix_symmetric_hollow (d : nat) (v : list A) :
  symmetric_hollow zero d (square_matrix zero d v).
Proof.
  split; [apply square_matrix_length|]; split.
  - intros i Hi; rewrite square_matrix_cell by assumption.
    rewrite square_cell_diag; reflexivity.
  - intros i j Hi Hj; exists (square_cell zero d v i j); split.
    + apply square_matrix_cell; assumption.
    + rewrite square_matrix_cell by assumption.
      rewrite square_cell_sym; reflexivity.
Qed.

Lemma squareform_vector_square_matrix (d : nat) (v : list A) :
  length v = n_pairs d ->
  squareform_vector (square_matrix zero d v) = Ok v.
Proof.
  intros Hlen; unfold squareform_vector; cbv zeta.
  rewrite square_matrix_length, square_matrix_rows.
  rewrite (sequence_ext_Ok _ (fun p => nth (condensed_index d (fst p) (snd p)) v zero)).
  - rewrite <- (map_map (fun p => condensed_index d (fst p) (snd p))
                        (fun k => nth k v zero)).
    rewrite condensed_index_canonical, <- Hlen, map_nth_all; reflexivity.
  - intros [i j] Hin; apply canonical_pairs_In in Hin; cbn [fst snd].
    rewrite square_matrix_cell by lia.
    rewrite square_cell_upper by lia; reflexivity.
Qed.

Lemma squareform_n_pairs (n : nat) (v : list A) :
  length v = n_pairs n ->
  squareform zero v = Ok (square_matrix zero (Nat.max n 1) v).
Proof.
  intros Hlen; unfold squareform.
  rewrite Hlen, matrix_dim_n_pairs; reflexivity.
Qed.

End SquareformFacts.

(** C4.  Round trip: a vector [v] of length N*(N-1)/2 is turned by
    [squareform] into a square matrix (N rows of N cells; the 1 x 1 zero
    matrix when the vector is empty), and reading that matrix back as a
    vectorized triangle yields exactly [v]. *)
Theorem squareform_round_trip {A : Type} (zero : A) (n : nat) (v : list A) :
  length v = n_pairs n ->
  exists M,
    squareform zero v = Ok M
    /\ length M = Nat.max n 1
    /\ Forall (fun row => length row = Nat.max n 1) M
    /\ squareform_vector M = Ok v.
Proof.
  intros Hlen.
  exists (square_matrix zero (Nat.max n 1) v).
  split; [apply squareform_n_pairs; exact Hlen|].
  split; [apply square_matrix_length|].
  split.
  - apply Forall_forall; intros row Hrow.
    pose proof (square_matrix_rows zero (Nat.max n 1) v) as H.
    rewrite forallb_forall in H; apply Nat.eqb_eq, H, Hrow.
  - apply squareform_vector_square_matrix.
    rewrite n_pairs_max; exact Hlen.
Qed.

Lemma squareform_round_trip_witness :
  exists M,
    squareform 0%float [0.5; 1; 0.25; 2; 4; 8]%float = Ok M
    /\ length M = 4
    /\ Forall (fun row => length row = 4) M
    /\ squareform_vector M = Ok [0.5; 1; 0.25; 2; 4; 8]%float.
Proof.
  exact (squareform_round_trip 0%float 4 [0.5; 1; 0.25; 2; 4; 8]%float eq_refl).
Defined.

(** ** The reordered square form that is plotted *)

Lemma take_nth {A : Type} (l : list A) (idx : list nat) (d : A) :
  Forall (fun k => k < length l) idx ->
  take l idx = Ok (map (fun k => nth k l d) idx).
Proof.
  intros H; unfold take; apply sequence_ext_Ok.
  intros k Hk; apply getitem_nth.
  rewrite Forall_forall in H; exact (H k Hk).
Qed.

Lemma cell_of_table {A : Type} (f : nat -> nat -> A) (idx : list nat) (a b : nat) :
  a < length idx -> b < length idx ->
  cell (map (fun i => map (fun j => f i j) idx) idx) a b
  = Ok (f (nth a idx 0) (nth b idx 0)).
Proof.
  intros Ha Hb; unfold cell, getitem.
  rewrite nth_error_map, (nth_error_nth' idx 0 Ha); cbn [option_map bind].
  rewrite nth_error_map, (nth_error_nth' idx 0 Hb); reflexivity.
Qed.

Section ReindexFacts.

Context {A : Type} (zero : A).

Lemma square_matrix_row (d : nat) (v : list A) (i : nat) :
  i < d ->
  nth i (square_matrix zero d v) [] = map (fun j => square_cell zero d v i j) (seq 0 d).
Proof.
  intros Hi; apply nth_error_nth; unfold square_matrix.
  exact (nth_error_map_seq
           (fun i => map (fun j => square_cell zero d v i j) (seq 0 d)) d i Hi).
Qed.

Lemma reindex_square_matrix (d : nat) (v : list A) (idx : list nat) :
  Forall (fun k => k < d) idx ->
  reindex (square_matrix zero d v) idx
  = Ok (map (fun i => map (fun j => square_cell zero d v i j) idx) idx).
Proof.
  intros Hidx; unfold reindex.
  rewrite (take_nth _ _ []) by (rewrite square_matrix_length; exact Hidx).
  cbn [bind]; rewrite map_map.
  apply sequence_ext_Ok; intros i Hi.
  assert (Hid : i < d) by (rewrite Forall_forall in Hidx; exact (Hidx i Hi)).
  rewrite square_matrix_row by exact Hid.
  rewrite (take_nth _ _ zero) by (rewrite length_map, length_seq; exact Hidx).
  f_equal; apply map_ext_in; intros j Hj.
  assert (Hjd : j < d) by (rewrite Forall_forall in Hidx; exact (Hidx j Hj)).
  apply nth_error_nth.
  exact (nth_error_map_seq (fun j => square_cell zero d v i j) d j Hjd).
Qed.

Lemma reindexed_symmetric_hollow (d : nat) (v : list A) (idx : list nat) :
  symmetric_hollow zero (length idx)
    (map (fun i => map (fun j => square_cell zero d v i j) idx) idx).
Proof.
  split; [apply length_map|]; split.
  - intros a Ha; rewrite cell_of_table by assumption.
    rewrite square_cell_diag; reflexivity.
  - intros a b Ha Hb; eexists; split.
    + apply cell_of_table; assumption.
    + rewrite cell_of_table by assumption.
      rewrite square_cell_sym; reflexivity.
Qed.

(** The square form of a vectorized triangle of [n] points, and any
    reordering of its rows and columns by the same positions. *)
Lemma squareform_spec (n : nat) (v : list A) :
  length v = n_pairs n ->
  exists M,
    squareform zero v = Ok M
    /\ symmetric_hollow zero (Nat.max n 1) M
    /\ (forall i j, i < j -> j < n ->
          nth_error (canonical_pairs n) (condensed_index n i j) = Some (i, j)
          /\ cell M i j = getitem v (condensed_index n i j)
          /\ cell M j i = getitem v (condensed_index n i j))
    /\ (forall idx, Forall (fun k => k < Nat.max n 1) idx ->
          exists P,
            reindex M idx = Ok P
            /\ symmetric_hollow zero (length idx) P
            /\ forall a b, a < length idx -> b < length idx ->
                 cell P a b = cell M (nth a idx 0) (nth b idx 0)).
Proof.
  intros Hlen; exists (square_matrix zero (Nat.max n 1) v).
  split; [apply squareform_n_pairs; exact Hlen|].
  split; [apply square_matrix_symmetric_hollow|].
  split.
  - intros i j Hij Hjn.
    destruct (canonical_pairs_nth n i j Hij Hjn) as [Hnth Hlt].
    assert (Hmax : Nat.max n 1 = n) by lia.
    rewrite Hmax, !square_matrix_cell by lia.
    rewrite (square_cell_sym zero n v j i), square_cell_upper by exact Hij.
    rewrite (getitem_nth v _ zero) by (rewrite Hlen; exact Hlt).
    repeat split; assumption.
  - intros idx Hidx; eexists; split; [apply reindex_square_matrix; exact Hidx|].
    split; [apply reindexed_symmetric_hollow|].
    intros a b Ha Hb; rewrite cell_of_table by assumption.
    rewrite Forall_forall in Hidx.
    rewrite square_matrix_cell; [reflexivity| |];
      apply Hidx, nth_In; assumption.
Qed.

(** Applied to the output of [pdist], the cells are the distances. *)
Lemma squareform_pdist {B : Type} (metric : B -> B -> A) (X : list B) (d : B) :
  exists M,
    squareform zero (pdist metric X) = Ok M
    /\ symmetric_hollow zero (Nat.max (length X) 1) M
    /\ forall i j, i < j -> j < length X ->
         cell M i j = Ok (metric (nth i X d) (nth j X d))
         /\ cell M j i = Ok (metric (nth i X d) (nth j X d)).
Proof.
  destruct (squareform_spec (length X) (pdist metric X) (pdist_length metric X))
    as (M & HM & Hsym & Hcell & _).
  exists M; split; [exact HM|]; split; [exact Hsym|].
  intros i j Hij Hj.
  destruct (Hcell i j Hij Hj) as (Hp & -> & ->).
  assert (E : getitem (pdist metric X) (condensed_index (length X) i j)
              = Ok (metric (nth i X d) (nth j X d))).
  { unfold getitem; rewrite (pdist_canonical metric d X).
    rewrite (map_nth_error _ _ _ Hp); reflexivity. }
  rewrite E; split; reflexivity.
Qed.

End ReindexFacts.

Lemma heatmap_spec (v : list float) :
  length v = 28 ->
  exists P,
    Plots.heatmap v = Ok P
    /\ symmetric_hollow 0%float 8 P
    /\ forall a b, a < 8 -> b < 8 ->
         cell P a b
         = Ok (square_cell 0%float 8 v (nth a Notebook.reorder 0)
                           (nth b Notebook.reorder 0)).
Proof.
  intros Hlen; unfold Plots.heatmap.
  rewrite (squareform_n_pairs 0%float 8 v Hlen); cbn [bind Nat.max].
  rewrite reindex_square_matrix
    by (unfold Notebook.reorder; repeat constructor).
  eexists; split; [reflexivity|]; split.
  - apply (reindexed_symmetric_hollow 0%float 8 v Notebook.reorder).
  - intros a b Ha Hb; apply cell_of_table; assumption.
Qed.

(** The cells of one heat map, read off the vectorized RDM: the cell of
    two rows showing the categories [i < j] is the entry of the pair
    [(i, j)]. *)
Lemma heatmap_entries (v : list float) :
  length v = 28 ->
  exists P,
    Plots.heatmap v = Ok P
    /\ symmetric_hollow 0%float 8 P
    /\ forall x y, x < 8 -> y < 8 ->
         nth x Notebook.reorder 0 < nth y Notebook.reorder 0 ->
         cell P x y
         = getitem v (condensed_index 8 (nth x Notebook.reorder 0)
                                      (nth y Notebook.reorder 0))
         /\ cell P y x
            = getitem v (condensed_index 8 (nth x Notebook.reorder 0)
                                         (nth y Notebook.reorder 0)).
Proof.
  intros Hlen.
  destruct (heatmap_spec v Hlen) as (P & HP & Hsym & Hcell).
  exists P; split; [exact HP|]; split; [exact Hsym|].
  intros x y Hx Hy Hlt.
  assert (Hj : nth y Notebook.reorder 0 < 8).
  { unfold Notebook.reorder.
    do 8 (destruct y as [|y]; [simpl; lia|]); lia. }
  destruct (canonical_pairs_nth 8 _ _ Hlt Hj) as [_ Hk].
  rewrite (Hcell x y Hx Hy), (Hcell y x Hy Hx).
  rewrite (square_cell_sym 0%float 8 v (nth y Notebook.reorder 0)).
  rewrite square_cell_upper by exact Hlt.
  rewrite (getitem_nth v _ 0%float) by (rewrite Hlen; exact Hk).
  split; reflexivity.
Qed.

Lemma reordered_labels (categories : list string) :
  8 <= length categories ->
  exists labels,
    take categories Notebook.reorder = Ok labels
    /\ forall x, x < 8 ->
         nth_error labels x = nth_error categories (nth x Notebook.reorder 0).
Proof.
  intros H; unfold Notebook.reorder.
  do 8 (destruct categories as [|? categories]; [simpl in H; lia|]).
  eexists; split; [reflexivity|].
  intros x Hx; do 8 (destruct x as [|x]; [reflexivity|]); lia.
Qed.

(** The entry of the size RDM for the categories [i < j] is the
    difference of their sizes. *)
Lemma rdm_size_entries (s : list float) (i j : nat) :
  Notebook.rdm_size = Ok s -> i < j -> j < 8 ->
  getitem s (condensed_index 8 i j)
  = Ok (PrimFloat.abs (PrimFloat.sub (nth i Notebook.sizes 0%float)
                                     (nth j Notebook.sizes 0%float))).
Proof.
  intros Hs Hij Hj; unfold Notebook.rdm_size in Hs.
  rewrite rdm_size_of_pdist in Hs.
  assert (E : s = pdist (fun a b => PrimFloat.abs (PrimFloat.sub a b))
                        Notebook.sizes) by congruence.
  destruct (canonical_pairs_nth 8 i j Hij Hj) as [Hp _].
  rewrite E; unfold getitem.
  rewrite (pdist_canonical (fun a b => PrimFloat.abs (PrimFloat.sub a b))
             0%float Notebook.sizes).
  change (length Notebook.sizes) with 8.
  rewrite (map_nth_error _ _ _ Hp); reflexivity.
Qed.

Lemma heatmaps_spec (categories : list string) (rdm_vt : list float) :
  length rdm_vt = 28 -> 8 <= length categories ->
  exists a t s labels Pa Pt Ps,
    Notebook.rdm_animacy rdm_vt = Ok a
    /\ Notebook.rdm_tools rdm_vt = Ok t
    /\ Notebook.rdm_size = Ok s
    /\ take categories Notebook.reorder = Ok labels
    /\ (forall x, x < 8 ->
          nth_error labels x = nth_error categories (nth x Notebook.reorder 0))
    /\ Plots.heatmaps categories rdm_vt
       = Ok [Plots.HeatMap "animacy RDM" Pa labels labels;
             Plots.HeatMap "tool RDM" Pt labels labels;
             Plots.HeatMap "real-world size RDM" Ps labels labels]
    /\ (forall v P, In (v, P) [(a, Pa); (t, Pt); (s, Ps)] ->
         symmetric_hollow 0%float 8 P
         /\ forall x y, x < 8 -> y < 8 ->
              nth x Notebook.reorder 0 < nth y Notebook.reorder 0 ->
              cell P x y
              = getitem v (condensed_index 8 (nth x Notebook.reorder 0)
                                           (nth y Notebook.reorder 0))
              /\ cell P y x
                 = getitem v (condensed_index 8 (nth x Notebook.reorder 0)
                                              (nth y Notebook.reorder 0)))
    /\ forall i j, i < j -> j < 8 ->
         getitem s (condensed_index 8 i j)
         = Ok (PrimFloat.abs (PrimFloat.sub (nth i Notebook.sizes 0%float)
                                            (nth j Notebook.sizes 0%float))).
Proof.
  intros Hlen Hcats.
  pose proof (rdm_animacy_length rdm_vt) as Ha.
  pose proof (rdm_tools_length rdm_vt) as Ht.
  destruct rdm_size_length as (s & Hs & _ & Hls).
  destruct (reordered_labels categories Hcats) as (labels & Hl & Hlab).
  unfold Plots.heatmaps, Plots.rdms, Plots.heatmap_of.
  destruct (Notebook.rdm_animacy rdm_vt) as [a|e]; [|lia].
  destruct (Notebook.rdm_tools rdm_vt) as [t|e]; [|lia].
  rewrite Hs, Hl; cbn [bind map sequence fst snd].
  destruct (heatmap_entries a ltac:(lia)) as (Pa & Ea & Hpa).
  destruct (heatmap_entries t ltac:(lia)) as (Pt & Et & Hpt).
  destruct (heatmap_entries s Hls) as (Ps & Es & Hps).
  rewrite Ea, Et, Es; cbn [bind].
  exists a, t, s, labels, Pa, Pt, Ps.
  split; [reflexivity|]; split; [reflexivity|]; split; [reflexivity|].
  split; [reflexivity|]; split; [exact Hlab|]; split; [reflexivity|].
  split.
  - intros v P [E | [E | [E | []]]]; injection E as <- <-; assumption.
  - intros i j; apply rdm_size_entries; exact Hs.
Qed.

(** C8.  For every vectorized dissimilarity array [v] of length
    N*(N-1)/2, [squareform] yields a square matrix that is symmetric with
    a zero diagonal, whose cells (i, j) and (j, i), i < j, both hold the
    entry of [v] for the pair (i, j); when [v] comes from [pdist] that
    entry is the distance between patterns i and j.  The same holds after
    reordering rows and columns by the same positions, hence for the three
    heat maps of the notebook, [squareform(rdms[rdm])[reorder][:, reorder]]
    with the tick labels [categories[reorder]]: the plotting cell yields,
    for the animacy, tool and size RDMs, a symmetric matrix with a zero
    diagonal whose rows and columns are labelled by the reordered
    categories and whose cell for two distinct categories is the entry of
    that RDM for the pair; for the size RDM that entry is the difference
    of the two sizes. *)
Theorem square_form_is_symmetric_rdm :
  (forall (A : Type) (zero : A) (n : nat) (v : list A),
      length v = n_pairs n ->
      exists M,
        squareform zero v = Ok M
        /\ symmetric_hollow zero (Nat.max n 1) M
        /\ (forall i j, i < j -> j < n ->
              nth_error (canonical_pairs n) (condensed_index n i j) = Some (i, j)
              /\ cell M i j = getitem v (condensed_index n i j)
              /\ cell M j i = getitem v (condensed_index n i j))
        /\ (forall idx, Forall (fun k => k < Nat.max n 1) idx ->
              exists P,
                reindex M idx = Ok P
                /\ symmetric_hollow zero (length idx) P
                /\ forall a b, a < length idx -> b < length idx ->
                     cell P a b = cell M (nth a idx 0) (nth b idx 0)))
  /\ (forall (A B : Type) (zero : A) (metric : B -> B -> A) (X : list B) (d : B),
         exists M,
           squareform zero (pdist metric X) = Ok M
           /\ symmetric_hollow zero (Nat.max (length X) 1) M
           /\ forall i j, i < j -> j < length X ->
                cell M i j = Ok (metric (nth i X d) (nth j X d))
                /\ cell M j i = Ok (metric (nth i X d) (nth j X d)))
  /\ (forall v : list float,
         length v = 28 ->
         exists P,
           Plots.heatmap v = Ok P
           /\ symmetric_hollow 0%float 8 P
           /\ forall a b, a < 8 -> b < 8 ->
                cell P a b
                = Ok (square_cell 0%float 8 v (nth a Notebook.reorder 0)
                                  (nth b Notebook.reorder 0)))
  /\ (forall (categories : list string) (rdm_vt : list float),
         length rdm_vt = 28 -> 8 <= length categories ->
         exists a t s labels Pa Pt Ps,
           Notebook.rdm_animacy rdm_vt = Ok a
           /\ Notebook.rdm_tools rdm_vt = Ok t
           /\ Notebook.rdm_size = Ok s
           /\ take categories Notebook.reorder = Ok labels
           /\ (forall x, x < 8 ->
                 nth_error labels x
                 = nth_error categories (nth x Notebook.reorder 0))
           /\ Plots.heatmaps categories rdm_vt
              = Ok [Plots.HeatMap "animacy RDM" Pa labels labels;
                    Plots.HeatMap "tool RDM" Pt labels labels;
                    Plots.HeatMap "real-world size RDM" Ps labels labels]
           /\ (forall v P, In (v, P) [(a, Pa); (t, Pt); (s, Ps)] ->
                 symmetric_hollow 0%float 8 P
                 /\ forall x y, x < 8 -> y < 8 ->
                      nth x Notebook.reorder 0 < nth y Notebook.reorder 0 ->
                      cell P x y
                      = getitem v (condensed_index 8 (nth x Notebook.reorder 0)
                                                   (nth y Notebook.reorder 0))
                      /\ cell P y x
                         = getitem v (condensed_index 8
                                        (nth x Notebook.reorder 0)
                                        (nth y Notebook.reorder 0)))
           /\ forall i j, i < j -> j < 8 ->
                getitem s (condensed_index 8 i j)
                = Ok (PrimFloat.abs
                        (PrimFloat.sub (nth i Notebook.sizes 0%float)
                                       (nth j Notebook.sizes 0%float)))).
Proof.
  split; [intros A zero n v; apply squareform_spec|].
  split; [intros A B zero metric X d; apply squareform_pdist|].
  split; [exact heatmap_spec|exact heatmaps_spec].
Qed.

Lemma square_form_is_symmetric_rdm_witness :
  exists a t s labels Pa Pt Ps,
    Notebook.rdm_animacy (repeat 0%float 28) = Ok a
    /\ Notebook.rdm_tools (repeat 0%float 28) = Ok t
    /\ Notebook.rdm_size = Ok s
    /\ take ["bottle"; "cat"; "chair"; "face"; "house"; "scissors";
             "scrambledpix"; "shoe"]%string Notebook.reorder = Ok labels
    /\ (forall x, x < 8 ->
          nth_error labels x
          = nth_error ["bottle"; "cat"; "chair"; "face"; "house"; "scissors";
                       "scrambledpix"; "shoe"]%string
                      (nth x Notebook.reorder 0))
    /\ Plots.heatmaps ["bottle"; "cat"; "chair"; "face"; "house"; "scissors";
                       "scrambledpix"; "shoe"]%string (repeat 0%float 28)
       = Ok [Plots.HeatMap "animacy RDM" Pa labels labels;
             Plots.HeatMap "tool RDM" Pt labels labels;
             Plots.HeatMap "real-world size RDM" Ps labels labels]
    /\ (forall v P, In (v, P) [(a, Pa); (t, Pt); (s, Ps)] ->
         symmetric_hollow 0%float 8 P
         /\ forall x y, x < 8 -> y < 8 ->
              nth x Notebook.reorder 0 < nth y Notebook.reorder 0 ->
              cell P x y
              = getitem v (condensed_index 8 (nth x Notebook.reorder 0)
                                           (nth y Notebook.reorder 0))
              /\ cell P y x
                 = getitem v (condensed_index 8 (nth x Notebook.reorder 0)
                                              (nth y Notebook.reorder 0)))
    /\ forall i j, i < j -> j < 8 ->
         getitem s (condensed_index 8 i j)
         = Ok (PrimFloat.abs (PrimFloat.sub (nth i Notebook.sizes 0%float)
                                            (nth j Notebook.sizes 0%float))).
Proof.
  exact (proj2 (proj2 (proj2 square_form_is_symmetric_rdm))
           ["bottle"; "cat"; "chair"; "face"; "house"; "scissors";
            "scrambledpix"; "shoe"]%string (repeat 0%float 28) eq_refl (le_n 8)).
Defined.

(** ** Binary64 arithmetic on bounded numbers *)

(** What is needed of the IEEE 754 operations to follow [rank_percentile]
    on an array of any length: a product or a quotient whose exact value
    lies between two numbers on the binary64 grid is rounded to a number
    between the same bounds.  The operations are those of [SpecFloat], to
    which the primitive floats are tied by [FloatAxioms]. *)

Section Binary64.

Local Open Scope Z_scope.



































End Binary64.

(** ** Ranks and rank percentiles *)

Section RankFacts.

Context {A : Type} (ltb : A -> A -> bool).

Hypothesis ltb_asym : forall x y, ltb x y = true -> ltb y x = false.

Lemma ltb_irrefl (x : A) : ltb x x = false.
Proof.
  destruct (ltb x x) eqn:E; [|reflexivity].
  rewrite (ltb_asym x x E) in E; discriminate.
Qed.





Lemma rank_percentile_map (a : list A) :
  rank_percentile ltb a = map (fun x => percentile (length a) (rank2 ltb a x)) a.
Proof. unfold rank_percentile, rankdata64; rewrite map_map; reflexivity. Qed.

End RankFacts.

(** A transformation that keeps the order of the entries keeps their
    ranks, hence their percentiles. *)
Section RankInvariance.

Context {A B : Type} (ltA : A -> A -> bool) (ltB : B -> B -> bool) (f : A -> B).
Context (a : list A).

Hypothesis f_order :
  forall x y, In x a -> In y a -> ltB (f x) (f y) = ltA x y.



End RankInvariance.









(** The percentiles of (1, 2, 3) as NumPy prints them,
    [33.33333333333333, 66.66666666666666, 100.0]: 100/3 is not a binary64
    number, the entries are the rounded quotients and products. *)
Lemma rank_percentile_of_1_2_3 :
  rank_percentile PrimFloat.ltb [1; 2; 3]%float
  = [0x1.0aaaaaaaaaaaap+5; 0x1.0aaaaaaaaaaaap+6; 100]%float.
Proof. reflexivity. Qed.




(** ** Distances between identical patterns *)

Lemma sequence_nth_error {A : Type} (ms : list (result A)) (r : list A)
  (k : nat) (m : result A) :
  sequence ms = Ok r -> nth_error ms k = Some m ->
  exists a, m = Ok a /\ nth_error r k = Some a.
Proof.
  revert r k; induction ms as [|m0 ms IH]; intros r k Hs Hk.
  - destruct k; discriminate.
  - simpl in Hs; destruct m0 as [a0|e]; simpl in Hs; [|discriminate].
    destruct (sequence ms) as [r'|e] eqn:E; simpl in Hs; [|discriminate].
    injection Hs as <-.
    destruct k as [|k]; simpl in Hk.
    + injection Hk as <-; exists a0; split; reflexivity.
    + apply (IH r' k eq_refl Hk).
Qed.

Section DistanceFacts.

Import Distance.
Local Open Scope R_scope.

Lemma dot_self (u : vector) : dot u u = sum (map (fun x => x * x) u).
Proof.
  unfold dot; induction u as [|x u IH]; [reflexivity|].
  simpl in *; rewrite IH; reflexivity.
Qed.

Lemma dot_self_nonneg (u : vector) : 0 <= dot u u.
Proof.
  rewrite dot_self; induction u as [|x u IH]; simpl; [lra|].
  pose proof (Rle_0_sqr x) as H; unfold Rsqr in H; lra.
Qed.

Lemma dot_self_zero (u : vector) : dot u u = 0 -> Forall (fun x => x = 0) u.
Proof.
  rewrite dot_self; induction u as [|x u IH]; simpl; intros H; [constructor|].
  assert (Hu : 0 <= sum (map (fun x => x * x) u))
    by (rewrite <- dot_self; apply dot_self_nonneg).
  pose proof (Rle_0_sqr x) as Hx; unfold Rsqr in Hx.
  constructor.
  - assert (E : x * x = 0) by lra.
    apply Rmult_integral in E; destruct E; assumption.
  - apply IH; lra.
Qed.

Lemma variance_nonneg (u : vector) : 0 <= variance u.
Proof.
  unfold variance, covariance.
  destruct u as [|x u].
  - replace (dot (center []) (center [])) with 0 by reflexivity.
    unfold Rdiv; rewrite Rmult_0_l; lra.
  - apply Rmult_le_pos; [apply dot_self_nonneg|].
    apply Rlt_le, Rinv_0_lt_compat, lt_0_INR; simpl; lia.
Qed.

(** Zero variance means that all entries are equal. *)
Lemma variance_zero_constant (u : vector) (x y : R) :
  variance u = 0 -> In x u -> In y u -> x = y.
Proof.
  intros Hv Hx Hy.
  assert (Hn : INR (length u) <> 0).
  { apply not_0_INR; destruct u; [contradiction|discriminate]. }
  assert (Hd : dot (center u) (center u) = 0).
  { unfold variance, covariance in Hv.
    apply Rmult_integral in Hv; destruct Hv as [Hv|Hv]; [exact Hv|].
    exfalso; revert Hv; apply Rinv_neq_0_compat; exact Hn. }
  apply dot_self_zero in Hd; rewrite Forall_forall in Hd.
  assert (Hc : forall z, In z u -> z - mean u = 0).
  { intros z Hz; apply Hd; unfold center.
    apply (in_map (fun x => x - mean u)); exact Hz. }
  pose proof (Hc x Hx); pose proof (Hc y Hy); lra.
Qed.

Lemma pearson_self (u : vector) : variance u <> 0 -> pearson u u = Ok 1.
Proof.
  intros Hv; unfold pearson, same_shape.
  rewrite Nat.eqb_refl; cbn [negb].
  destruct (Req_dec_T (variance u) 0) as [E|_]; [contradiction|].
  f_equal; fold (variance u).
  rewrite sqrt_square by apply variance_nonneg.
  field; exact Hv.
Qed.

Lemma correlation_self (u : vector) : variance u <> 0 -> correlation u u = Ok 0.
Proof.
  intros Hv; unfold correlation; rewrite pearson_self by exact Hv.
  cbn [bind]; f_equal; lra.
Qed.

Lemma correlation_self_Ok (u : vector) (a : R) : correlation u u = Ok a -> a = 0.
Proof.
  intros H; destruct (Req_dec_T (variance u) 0) as [E|N].
  - unfold correlation, pearson, same_shape in H.
    rewrite Nat.eqb_refl in H; cbn [negb] in H.
    destruct (Req_dec_T (variance u) 0); [discriminate|contradiction].
  - rewrite (correlation_self u N) in H; injection H as <-; reflexivity.
Qed.

Lemma euclidean_self (u : vector) : euclidean u u = Ok 0.
Proof.
  unfold euclidean, same_shape; rewrite Nat.eqb_refl; cbn [negb].
  f_equal; rewrite <- sqrt_0; f_equal.
  induction u as [|x u IH]; [reflexivity|].
  simpl; rewrite IH; ring.
Qed.

Lemma distance_self_Ok (m : metric) (u : vector) (a : R) :
  distance m u u = Ok a -> a = 0.
Proof.
  destruct m; simpl.
  - apply correlation_self_Ok.
  - rewrite euclidean_self; intros H; injection H as <-; reflexivity.
Qed.

(** C2.  For identical response patterns the Euclidean distance (the L2
    norm of the difference) is 0, and the correlation distance (1 minus
    the Pearson correlation) is 0 whenever the pattern has nonzero
    variance; accordingly every entry that the dissimilarity computer
    yields for a pair of identical patterns is 0. *)
Theorem identical_patterns_distance_zero :
  (forall x : vector, euclidean x x = Ok 0)
  /\ (forall x : vector, variance x <> 0 -> correlation x x = Ok 0)
  /\ (forall (m : metric) (X : list vector) (r : list R) (i j : nat),
         rdm m X = Ok r -> (i < j)%nat -> (j < length X)%nat ->
         nth i X [] = nth j X [] ->
         nth_error r (condensed_index (length X) i j) = Some 0).
Proof.
  split; [exact euclidean_self|]; split; [exact correlation_self|].
  intros m X r i j Hr Hij Hj Heq.
  destruct (canonical_pairs_nth (length X) i j Hij Hj) as [Hp _].
  unfold rdm, pdist_checked in Hr.
  rewrite (pdist_canonical (distance m) [] X) in Hr.
  destruct (sequence_nth_error _ _ _ _ Hr (map_nth_error _ _ _ Hp))
    as (a & Ha & Hk).
  cbn [fst snd] in Ha; rewrite Heq in Ha.
  rewrite (distance_self_Ok m _ a Ha) in Hk; exact Hk.
Qed.

End DistanceFacts.

Lemma identical_patterns_distance_zero_witness :
  Distance.correlation [0; 1]%R [0; 1]%R = Ok 0%R.
Proof.
  apply (proj1 (proj2 identical_patterns_distance_zero) [0; 1]%R).
  unfold Distance.variance, Distance.covariance, Distance.dot, Distance.center,
    Distance.mean, Distance.sum; simpl.
  lra.
Defined.

(** ** Rank correlation of an array with itself *)

Lemma filter_length_mono {B : Type} (p q : B -> bool) (l : list B) :
  (forall z, In z l -> p z = true -> q z = true) ->
  length (filter p l) <= length (filter q l).
Proof.
  induction l as [|h t IH]; intros H; [reflexivity|]; simpl.
  assert (IH' : length (filter p t) <= length (filter q t))
    by (apply IH; intros z Hz; apply H; right; exact Hz).
  destruct (p h) eqn:Ep.
  - rewrite (H h (or_introl eq_refl) Ep); simpl; lia.
  - destruct (q h); simpl; lia.
Qed.

Lemma filter_length_strict {B : Type} (p q : B -> bool) (l : list B) (x : B) :
  (forall z, In z l -> p z = true -> q z = true) ->
  In x l -> p x = false -> q x = true ->
  length (filter p l) < length (filter q l).
Proof.
  induction l as [|h t IH]; intros H Hin Hp Hq; [contradiction|]; simpl.
  assert (Hmono : length (filter p t) <= length (filter q t))
    by (apply filter_length_mono; intros z Hz; apply H; right; exact Hz).
  destruct Hin as [-> | Hin].
  - rewrite Hp, Hq; simpl; lia.
  - assert (IH' : length (filter p t) < length (filter q t))
      by (apply IH; try assumption; intros z Hz; apply H; right; exact Hz).
    destruct (p h) eqn:Ep.
    + rewrite (H h (or_introl eq_refl) Ep); simpl; lia.
    + destruct (q h); simpl; lia.
Qed.

Section SpearmanFacts.

Import Distance.
Local Open Scope R_scope.

Lemma Rltb_lt (x y : R) : Rltb x y = true <-> x < y.
Proof. unfold Rltb; destruct (Rlt_dec x y); split; intros; try discriminate; tauto. Qed.

Lemma Rltb_ge (x y : R) : Rltb x y = false <-> y <= x.
Proof.
  unfold Rltb; destruct (Rlt_dec x y); split; intros; try discriminate;
    try reflexivity; lra.
Qed.

(** A smaller value has a smaller rank. *)
Lemma rank2_lt (a : vector) (x y : R) :
  In x a -> x < y -> (rank2 Rltb a x < rank2 Rltb a y)%nat.
Proof.
  intros Hin Hxy; unfold rank2, count_lt, count_le.
  assert (H1 : (length (filter (fun z => Rltb z x) a)
                < length (filter (fun z => Rltb z y) a))%nat).
  { apply (filter_length_strict _ _ a x); [|exact Hin| |].
    - intros z _ Hz; apply Rltb_lt in Hz; apply Rltb_lt; lra.
    - apply Rltb_ge; lra.
    - apply Rltb_lt; exact Hxy. }
  assert (H2 : (length (filter (fun z => negb (Rltb x z)) a)
                <= length (filter (fun z => negb (Rltb y z)) a))%nat).
  { apply filter_length_mono; intros z _ Hz.
    apply negb_true_iff in Hz; apply Rltb_ge in Hz.
    apply negb_true_iff, Rltb_ge; lra. }
  lia.
Qed.

Lemma ranks_map (a : vector) :
  ranks a = map (fun x => Q2R (Qmake (Z.of_nat (rank2 Rltb a x)) 2)) a.
Proof. unfold ranks, rankdata; rewrite map_map; reflexivity. Qed.

Lemma ranks_distinct (a : vector) (x y : R) :
  In x a -> In y a -> x < y -> variance (ranks a) <> 0.
Proof.
  intros Hx Hy Hxy Hv.
  pose proof (rank2_lt a x y Hx Hxy) as Hlt.
  set (rx := Q2R (Qmake (Z.of_nat (rank2 Rltb a x)) 2)).
  set (ry := Q2R (Qmake (Z.of_nat (rank2 Rltb a y)) 2)).
  assert (Hrx : In rx (ranks a))
    by (rewrite ranks_map;
        apply (in_map (fun x => Q2R (Qmake (Z.of_nat (rank2 Rltb a x)) 2))); exact Hx).
  assert (Hry : In ry (ranks a))
    by (rewrite ranks_map;
        apply (in_map (fun x => Q2R (Qmake (Z.of_nat (rank2 Rltb a x)) 2))); exact Hy).
  pose proof (variance_zero_constant (ranks a) rx ry Hv Hrx Hry) as E.
  assert (Hq : rx < ry).
  { apply Qlt_Rlt; unfold Qlt; cbn [Qnum Qden]; lia. }
  lra.
Qed.

Lemma sum_repeat (c : R) (n : nat) : sum (repeat c n) = INR n * c.
Proof.
  induction n as [|n IH]; [simpl; lra|].
  cbn [repeat sum fold_right]; fold (sum (repeat c n)).
  rewrite IH, S_INR; lra.
Qed.

(** A constant vector (also the empty one) has zero variance. *)
Lemma variance_repeat (c : R) (n : nat) : variance (repeat c n) = 0.
Proof.
  unfold variance, covariance.
  destruct n as [|n].
  - replace (dot (center (repeat c 0)) (center (repeat c 0))) with 0
      by reflexivity.
    unfold Rdiv; rewrite Rmult_0_l; reflexivity.
  - assert (Hm : mean (repeat c (S n)) = c).
    { unfold mean; rewrite sum_repeat, repeat_length.
      field; apply not_0_INR; discriminate. }
    assert (Hc : dot (center (repeat c (S n))) (center (repeat c (S n))) = 0).
    { rewrite dot_self; unfold center; rewrite Hm, map_map.
      generalize (S n); intros m.
      induction m as [|m IH]; [reflexivity|].
      cbn [repeat map].
      change (sum (?h :: ?t)) with (h + sum t); rewrite IH; ring. }
    rewrite Hc; unfold Rdiv; rewrite Rmult_0_l; reflexivity.
Qed.

End SpearmanFacts.

Section SpearmanSelf.

Import Distance.
Local Open Scope R_scope.

Lemma map_constant {B C : Type} (f : B -> C) (c : C) (l : list B) :
  (forall x, In x l -> f x = c) -> map f l = repeat c (length l).
Proof.
  induction l as [|h t IH]; intros H; [reflexivity|]; simpl.
  rewrite (H h (or_introl eq_refl)), IH; [reflexivity|].
  intros x Hx; apply H; right; exact Hx.
Qed.

Lemma spearmanr_self_distinct (a : vector) (x y : R) :
  In x a -> In y a -> x < y -> spearmanr a a = Ok 1.
Proof.
  intros Hx Hy Hxy; unfold spearmanr.
  apply pearson_self, (ranks_distinct a x y); assumption.
Qed.

Lemma spearmanr_self_constant (a : vector) :
  (forall x y, In x a -> In y a -> x = y) ->
  spearmanr a a = Raise DegenerateVector.
Proof.
  intros Hconst.
  assert (Hv : variance (ranks a) = 0).
  { destruct a as [|x0 t]; [apply (variance_repeat 0 0)|].
    rewrite ranks_map.
    rewrite (map_constant _ (Q2R (Qmake (Z.of_nat (rank2 Rltb (x0 :: t) x0)) 2))).
    - apply variance_repeat.
    - intros x Hx; rewrite (Hconst x x0 Hx (or_introl eq_refl)); reflexivity. }
  unfold spearmanr, pearson, same_shape.
  rewrite Nat.eqb_refl; cbn [negb].
  destruct (Req_dec_T (variance (ranks a)) 0); [reflexivity|contradiction].
Qed.

(** With all its entries tied an array has no rank correlation with
    itself: the ranks have zero variance. *)
Lemma spearmanr_of_tied_array_is_undefined :
  spearmanr [1; 1] [1; 1] = Raise DegenerateVector
  /\ spearmanr [1; 1] [1; 1] <> Ok 1.
Proof.
  assert (H : spearmanr [1; 1] [1; 1] = Raise DegenerateVector).
  { apply spearmanr_self_constant.
    intros x y [<- | [<- | []]] [<- | [<- | []]]; reflexivity. }
  split; [exact H|rewrite H; discriminate].
Qed.

(** C5 (amended).  With average ranks for ties, the Spearman rank
    correlation of a dissimilarity array with itself equals 1 for every
    array that holds at least two distinct values; for an array whose
    entries are all equal (or that is empty) the ranks have zero variance
    and the correlation is undefined, which is signalled as an error. *)
Theorem spearmanr_self (a : vector) :
  ((exists x y, In x a /\ In y a /\ x < y) -> spearmanr a a = Ok 1)
  /\ ((forall x y, In x a -> In y a -> x = y) ->
      spearmanr a a = Raise DegenerateVector).
Proof.
  split.
  - intros (x & y & Hx & Hy & Hxy); apply (spearmanr_self_distinct a x y); assumption.
  - apply spearmanr_self_constant.
Qed.

End SpearmanSelf.

Lemma spearmanr_self_witness :
  Distance.spearmanr [0.5; 1; 0.5; 0]%R [0.5; 1; 0.5; 0]%R = Ok 1%R.
Proof.
  apply (proj1 (spearmanr_self [0.5; 1; 0.5; 0]%R)).
  exists 0.5%R, 1%R; split; [simpl; auto|]; split; [simpl; auto|lra].
Defined.

(* ================================================================== *)
(** * Part III: further properties of the notebook's cells *)
(* ================================================================== *)

(** ** Sorted unique values *)

Section UniqueFacts.

Context {A : Type} (cmp : A -> A -> comparison).

Hypothesis cmp_eq : forall x y, cmp x y = Eq -> x = y.
Hypothesis cmp_antisym : forall x y, cmp x y = CompOpp (cmp y x).
Hypothesis cmp_trans :
  forall x y z, cmp x y = Lt -> cmp y z = Lt -> cmp x z = Lt.

Let below (x y : A) : Prop := cmp x y = Lt.

Lemma cmp_irrefl (x : A) : cmp x x <> Lt.
Proof.
  intros H; pose proof (cmp_antisym x x) as E; rewrite H in E; discriminate.
Qed.

Lemma insert_unique_by_In (x y : A) (l : list A) :
  In y (insert_unique_by cmp x l) <-> y = x \/ In y l.
Proof.
  induction l as [|h t IH]; simpl; [intuition|].
  destruct (cmp x h) eqn:E; simpl.
  - apply cmp_eq in E; subst h; intuition.
  - intuition.
  - rewrite IH; intuition.
Qed.

Lemma unique_by_In (y : A) (l : list A) : In y (unique_by cmp l) <-> In y l.
Proof.
  induction l as [|h t IH]; simpl; [tauto|].
  rewrite insert_unique_by_In, IH; intuition.
Qed.

Lemma insert_unique_by_sorted (x : A) (l : list A) :
  StronglySorted below l -> StronglySorted below (insert_unique_by cmp x l).
Proof.
  intros H; induction H as [|h t Ht IH Hh]; simpl.
  - repeat constructor.
  - destruct (cmp x h) eqn:E.
    + constructor; assumption.
    + constructor; [constructor; assumption|].
      constructor; [exact E|].
      revert Hh; apply Forall_impl; intros z Hz; exact (cmp_trans x h z E Hz).
    + constructor; [exact IH|].
      apply Forall_forall; intros z Hz.
      apply insert_unique_by_In in Hz; destruct Hz as [-> | Hz].
      * unfold below; rewrite cmp_antisym, E; reflexivity.
      * rewrite Forall_forall in Hh; exact (Hh z Hz).
Qed.

Lemma unique_by_sorted (l : list A) : StronglySorted below (unique_by cmp l).
Proof.
  induction l as [|h t IH]; simpl; [constructor|].
  apply insert_unique_by_sorted; exact IH.
Qed.

Lemma sorted_NoDup (l : list A) : StronglySorted below l -> NoDup l.
Proof.
  intros H; induction H as [|h t Ht IH Hh]; constructor; [|exact IH].
  intros Hin; rewrite Forall_forall in Hh.
  exact (cmp_irrefl h (Hh h Hin)).
Qed.

(** A strictly sorted list is determined by its elements. *)
Lemma sorted_same_elements (l1 l2 : list A) :
  StronglySorted below l1 -> StronglySorted below l2 ->
  (forall x, In x l1 <-> In x l2) -> l1 = l2.
Proof.
  intros H1; revert l2; induction H1 as [|h1 t1 Ht1 IH Hh1]; intros l2 H2 Hsame.
  - destruct l2 as [|h2 t2]; [reflexivity|].
    destruct (proj2 (Hsame h2) (or_introl eq_refl)).
  - destruct H2 as [|h2 t2 Ht2 Hh2].
    + destruct (proj1 (Hsame h1) (or_introl eq_refl)).
    + rewrite Forall_forall in Hh1, Hh2.
      assert (Eh : h1 = h2).
      { destruct (proj1 (Hsame h1) (or_introl eq_refl)) as [E | Hin1];
          [symmetry; exact E|].
        destruct (proj2 (Hsame h2) (or_introl eq_refl)) as [E | Hin2];
          [exact E|].
        exfalso; apply (cmp_irrefl h1).
        exact (cmp_trans h1 h2 h1 (Hh1 h2 Hin2) (Hh2 h1 Hin1)). }
      subst h2; f_equal; apply IH; [exact Ht2|].
      intros x; split; intros Hx.
      * destruct (proj1 (Hsame x) (or_intror Hx)) as [E | Hin]; [|exact Hin].
        subst x; exfalso; exact (cmp_irrefl h1 (Hh1 h1 Hx)).
      * destruct (proj2 (Hsame x) (or_intror Hx)) as [E | Hin]; [|exact Hin].
        subst x; exfalso; exact (cmp_irrefl h1 (Hh2 h1 Hx)).
Qed.

End UniqueFacts.

Lemma StronglySorted_filter {A : Type} (R : A -> A -> Prop) (p : A -> bool)
  (l : list A) :
  StronglySorted R l -> StronglySorted R (filter p l).
Proof.
  intros H; induction H as [|h t Ht IH Hh]; simpl; [constructor|].
  destruct (p h); [|exact IH].
  constructor; [exact IH|].
  rewrite Forall_forall in *; intros x Hx.
  apply filter_In in Hx; apply Hh; tauto.
Qed.

Lemma string_compare_trans (x y z : string) :
  String.compare x y = Lt -> String.compare y z = Lt -> String.compare x z = Lt.
Proof.
  intros H1 H2.
  apply OrderedTypeEx.String_as_OT.cmp_lt in H1, H2.
  apply OrderedTypeEx.String_as_OT.cmp_lt.
  exact (OrderedTypeEx.String_as_OT.lt_trans x y z H1 H2).
Qed.

Lemma np_unique_unique_by (l : list string) :
  np_unique l = unique_by String.compare l.
Proof.
  unfold np_unique, unique_by; induction l as [|s l IH]; simpl; [reflexivity|].
  rewrite IH; generalize (fold_right (insert_unique_by String.compare) [] l).
  intros u; induction u as [|h t IHu]; simpl; [reflexivity|].
  destruct (String.compare s h); reflexivity.
Qed.

Lemma categories_In (stimuli : list string) (c : string) :
  In c (categories stimuli) <-> In c stimuli /\ c <> "rest"%string.
Proof.
  unfold categories; rewrite filter_In, np_unique_unique_by.
  rewrite (unique_by_In String.compare String.compare_eq_iff).
  rewrite negb_true_iff, String.eqb_neq; tauto.
Qed.

Lemma categories_sorted (stimuli : list string) :
  StronglySorted (fun a b => String.compare a b = Lt) (categories stimuli).
Proof.
  unfold categories; apply StronglySorted_filter.
  rewrite np_unique_unique_by.
  apply (unique_by_sorted String.compare String.compare_eq_iff
           String.compare_antisym string_compare_trans).
Qed.

(** X1.  [categories] holds exactly the labels that occur in [stimuli]
    other than 'rest': 'rest' is never a category, no other label is lost
    and none is invented; a recording made of rest only (or an empty one)
    has no category. *)
Theorem categories_are_the_labels_but_rest :
  (forall stimuli, ~ In "rest"%string (categories stimuli))
  /\ (forall stimuli c,
         In c (categories stimuli) <-> In c stimuli /\ c <> "rest"%string)
  /\ (forall n, categories (repeat "rest"%string n) = []).
Proof.
  split; [intros stimuli; rewrite categories_In; tauto|].
  split; [apply categories_In|].
  intros n.
  destruct (categories (repeat "rest"%string n)) as [|c l] eqn:E;
    [reflexivity|exfalso].
  assert (Hc : In c (categories (repeat "rest"%string n)))
    by (rewrite E; left; reflexivity).
  apply categories_In in Hc; destruct Hc as [Hin Hne].
  apply repeat_spec in Hin; exact (Hne Hin).
Qed.

(** X2.  [categories] is in strictly increasing alphabetical order, hence
    without repetitions, and it depends only on which labels occur: two
    label sequences with the same labels, in any order and multiplicity,
    give the same categories. *)
Theorem categories_sorted_and_canonical (stimuli stimuli' : list string) :
  StronglySorted (fun a b => String.compare a b = Lt) (categories stimuli)
  /\ NoDup (categories stimuli)
  /\ ((forall c, In c stimuli <-> In c stimuli') ->
      categories stimuli = categories stimuli').
Proof.
  split; [apply categories_sorted|]; split.
  - apply (sorted_NoDup String.compare String.compare_antisym).
    apply categories_sorted.
  - intros Hsame.
    apply (sorted_same_elements String.compare String.compare_antisym
             string_compare_trans); try apply categories_sorted.
    intros c; rewrite !categories_In, Hsame; tauto.
Qed.

Lemma categories_sorted_and_canonical_witness :
  categories ["face"; "rest"; "cat"; "rest"; "face"]%string
  = categories ["rest"; "cat"; "cat"; "face"]%string.
Proof.
  apply (categories_sorted_and_canonical
           ["face"; "rest"; "cat"; "rest"; "face"]%string
           ["rest"; "cat"; "cat"; "face"]%string).
  intros c; simpl; tauto.
Defined.

(** ** The binary model RDMs over a neural RDM of any length *)

Lemma setitem_map_seq_from {A : Type} (f : nat -> A) (n a i : nat) (v : A) :
  i < n ->
  setitem (map f (seq a n)) i v
  = Ok (map (fun k => if k =? a + i then v else f k) (seq a n)).
Proof.
  revert a i; induction n as [|n IH]; intros a i Hi; [lia|].
  cbn [seq map]; destruct i as [|i]; cbn [setitem].
  - rewrite Nat.add_0_r, Nat.eqb_refl; do 2 f_equal.
    apply map_ext_in; intros k Hk; apply in_seq in Hk.
    replace (k =? a) with false by (symmetry; apply Nat.eqb_neq; lia).
    reflexivity.
  - rewrite (IH (S a) i) by lia; cbn [bind].
    replace (a =? a + S i) with false by (symmetry; apply Nat.eqb_neq; lia).
    do 2 f_equal; apply map_ext; intros k.
    replace (S a + i) with (a + S i) by lia; reflexivity.
Qed.

Lemma setitem_map_seq {A : Type} (f : nat -> A) (n i : nat) (v : A) :
  i < n ->
  setitem (map f (seq 0 n)) i v
  = Ok (map (fun k => if k =? i then v else f k) (seq 0 n)).
Proof. intros Hi; exact (setitem_map_seq_from f n 0 i v Hi). Qed.

Lemma setitem_map_seq_ge {A : Type} (f : nat -> A) (n i : nat) (v : A) :
  n <= i -> setitem (map f (seq 0 n)) i v = Raise IndexError.
Proof.
  intros Hi; apply setitem_ge; rewrite length_map, length_seq; exact Hi.
Qed.

Lemma ones_map_seq (n : nat) :
  Notebook.ones n = map (fun _ => 1%float) (seq 0 n).
Proof.
  unfold Notebook.ones; generalize 0.
  induction n as [|n IH]; intros a; simpl; [reflexivity|].
  rewrite (IH (S a)); reflexivity.
Qed.

(** X3.  For a neural RDM of any length, [rdm_animacy] raises IndexError
    when it has at most 8 entries and is otherwise all 1 except 0.5 at
    index 8; [rdm_tools] raises IndexError when it has at most 26 entries
    and is otherwise all 1 except 0.5 at indices 4, 6 and 26.  Neither
    reads the values of the neural RDM, only its length. *)
Theorem model_rdms_for_any_length (rdm_vt : list float) :
  Notebook.rdm_animacy rdm_vt
  = (if length rdm_vt <=? 8 then Raise IndexError
     else Ok (map (fun k => if k =? 8 then 0.5%float else 1%float)
                  (seq 0 (length rdm_vt))))
  /\ Notebook.rdm_tools rdm_vt
     = (if length rdm_vt <=? 26 then Raise IndexError
        else Ok (map (fun k => if (k =? 4) || (k =? 6) || (k =? 26)
                               then 0.5%float else 1%float)
                     (seq 0 (length rdm_vt)))).
Proof.
  unfold Notebook.rdm_animacy, Notebook.rdm_tools, setitems.
  rewrite ones_map_seq; set (n := length rdm_vt); split.
  - destruct (n <=? 8) eqn:E.
    + apply Nat.leb_le in E; apply setitem_map_seq_ge; exact E.
    + apply Nat.leb_gt in E; apply setitem_map_seq; exact E.
  - cbn [for_each].
    destruct (n <=? 26) eqn:E.
    + apply Nat.leb_le in E.
      destruct (le_lt_dec n 4) as [H4|H4];
        [rewrite setitem_map_seq_ge by exact H4; reflexivity|].
      rewrite setitem_map_seq by exact H4; cbn [bind].
      destruct (le_lt_dec n 6) as [H6|H6];
        [rewrite setitem_map_seq_ge by exact H6; reflexivity|].
      rewrite setitem_map_seq by exact H6; cbn [bind].
      rewrite setitem_map_seq_ge by exact E; reflexivity.
    + apply Nat.leb_gt in E.
      rewrite setitem_map_seq by lia; cbn [bind].
      rewrite setitem_map_seq by lia; cbn [bind].
      rewrite setitem_map_seq by lia; cbn [bind]; f_equal.
      apply map_ext; intros k.
      destruct (k =? 4), (k =? 6), (k =? 26); reflexivity.
Qed.

(** ** The split of the scan by run *)



Lemma mask_select_mismatch {A : Type} (a : list A) (mask : list bool) :
  length a <> length mask -> mask_select a mask = Raise IndexError.
Proof.
  revert mask; induction a as [|x a IH]; intros [|b mask] H; simpl in *;
    try reflexivity; [contradiction|].
  rewrite IH by lia; reflexivity.
Qed.







Lemma unique_runs_In (runs : list Z) (u : Z) :
  In u (unique_by Z.compare runs) <-> In u runs.
Proof.
  apply unique_by_In; intros x y H; apply Z.compare_eq; exact H.
Qed.






(** X5.  The split by run fails with an IndexError as soon as the number
    of volumes differs from the number of run labels, unless there is no
    run label at all: then the loop body never runs and the result is
    empty whatever the image holds. *)
Theorem func_runs_length_mismatch :
  (forall (V : Type) (func_file : list V), func_runs func_file [] = Ok [])
  /\ (forall (V : Type) (func_file : list V) (runs : list Z),
         runs <> [] -> length func_file <> length runs ->
         func_runs func_file runs = Raise IndexError).
Proof.
  split; [reflexivity|].
  intros V func_file runs Hne Hlen; unfold func_runs.
  destruct (unique_by Z.compare runs) as [|u us] eqn:E.
  - destruct runs as [|r runs]; [contradiction|].
    assert (Hin : In r (unique_by Z.compare (r :: runs)))
      by (apply unique_runs_In; left; reflexivity).
    rewrite E in Hin; destruct Hin.
  - cbn [for_each].
    rewrite mask_select_mismatch
      by (unfold eq_mask; rewrite length_map; exact Hlen).
    reflexivity.
Qed.

Lemma func_runs_length_mismatch_witness :
  func_runs ["a"; "b"; "c"]%string [0; 1]%Z = Raise IndexError.
Proof.
  apply (proj2 func_runs_length_mismatch); simpl; [discriminate|lia].
Defined.

(** ** The events of a run *)

Section DesignFacts.

Context {F D : Type} (mul : F -> F -> F) (of_int : nat -> F) (tr : F).
Context (make_first_level_design_matrix : list F -> list (event F) -> D).

Lemma onsets_of_length (n : nat) : length (onsets_of mul of_int tr n) = n.
Proof. unfold onsets_of; rewrite length_map, length_seq; reflexivity. Qed.

Lemma events_rows_from (g : nat -> F) (sr : list string) (start : nat) :
  map (fun p => Event (fst (fst p)) (snd (fst p)) (snd p))
      (combine (combine (map g (seq start (length sr))) sr)
               (repeat tr (length sr)))
  = map (fun k => Event (g k) (nth (k - start) sr ""%string) tr)
        (seq start (length sr)).
Proof.
  revert start; induction sr as [|s sr IH]; intros start; [reflexivity|].
  cbn [length seq map combine repeat fst snd]; f_equal.
  - rewrite Nat.sub_diag; reflexivity.
  - rewrite IH; apply map_ext_in; intros k Hk; apply in_seq in Hk.
    replace (k - start) with (S (k - S start)) by lia; reflexivity.
Qed.

Lemma events_of_run_spec (sr : list string) :
  events_of_run mul of_int tr sr
  = Ok (map (fun k => Event (mul tr (of_int k)) (nth k sr ""%string) tr)
            (filter (fun k => negb (String.eqb (nth k sr ""%string) "rest"))
                    (seq 0 (length sr)))).
Proof.
  unfold events_of_run, events_frame; cbv zeta.
  rewrite onsets_of_length, repeat_length, Nat.eqb_refl; cbn [andb bind].
  f_equal; unfold onsets_of.
  rewrite (events_rows_from (fun k => mul tr (of_int k)) sr 0).
  rewrite (map_ext _ (fun k => Event (mul tr (of_int k)) (nth k sr ""%string) tr))
    by (intros k; rewrite Nat.sub_0_r; reflexivity).
  rewrite filter_map_swap; reflexivity.
Qed.

End DesignFacts.


(** X6.  The events of a run are its non-rest volumes, in scan order:
    dropping the 'rest' rows does not renumber anything, the onset of an
    event is [tr] times the position of its volume in the run, its
    duration is [tr], and building the table never fails. *)
Theorem events_keep_scan_positions {F : Type} (mul : F -> F -> F)
  (of_int : nat -> F) (tr : F) (stimuli_run : list string) :
  exists evs,
    events_of_run mul of_int tr stimuli_run = Ok evs
    /\ evs = map (fun k => Event (mul tr (of_int k))
                                 (nth k stimuli_run ""%string) tr)
                 (filter (fun k => negb (String.eqb (nth k stimuli_run ""%string)
                                                    "rest"))
                         (seq 0 (length stimuli_run)))
    /\ map trial_type evs
       = filter (fun c => negb (String.eqb c "rest")) stimuli_run
    /\ Forall (fun e => trial_type e <> "rest"%string /\ duration e = tr) evs.
Proof.
  eexists; split; [apply events_of_run_spec|]; split; [reflexivity|]; split.
  - rewrite map_map; cbn [trial_type].
    transitivity
      (filter (fun c => negb (String.eqb c "rest"))
              (map (fun k => nth k stimuli_run ""%string)
                   (seq 0 (length stimuli_run)))).
    + symmetry; apply filter_map_swap.
    + rewrite map_nth_all; reflexivity.
  - apply Forall_map, Forall_forall; intros k Hk; cbn [trial_type duration].
    apply filter_In in Hk; destruct Hk as [_ Hk].
    apply negb_true_iff, String.eqb_neq in Hk; split; [exact Hk|reflexivity].
Qed.

Section AlignmentFacts.

Context {V F D : Type} (mul : F -> F -> F) (of_int : nat -> F) (tr : F).
Context (make_first_level_design_matrix : list F -> list (event F) -> D).

Lemma design_of_run_Ok (sr : list string) :
  exists evs,
    events_of_run mul of_int tr sr = Ok evs
    /\ design_of_run mul of_int tr make_first_level_design_matrix sr
       = Ok (make_first_level_design_matrix
               (onsets_of mul of_int tr (length sr)) evs).
Proof.
  unfold design_of_run; rewrite events_of_run_spec.
  eexists; split; reflexivity.
Qed.


End AlignmentFacts.


(** ** Reordering rows and columns *)

Lemma nth_map_default {A B : Type} (g : A -> B) (l : list A) (k : nat)
  (d : A) (d' : B) :
  k < length l -> nth k (map g l) d' = g (nth k l d).
Proof.
  intros H; rewrite (nth_indep _ d' (g d)) by (rewrite length_map; exact H).
  apply map_nth.
Qed.

(** Reindexing a table given by its cells. *)
Lemma reindex_tabulated {A : Type} (f : nat -> nat -> A) (l idx : list nat) :
  Forall (fun k => k < length l) idx ->
  reindex (map (fun i => map (f i) l) l) idx
  = Ok (map (fun i => map (f i) (map (fun k => nth k l 0) idx))
            (map (fun k => nth k l 0) idx)).
Proof.
  intros Hidx; unfold reindex.
  rewrite (take_nth _ _ []) by (rewrite length_map; exact Hidx).
  cbn [bind]; rewrite !map_map.
  apply sequence_ext_Ok; intros a Ha.
  assert (Hal : a < length l) by (rewrite Forall_forall in Hidx; exact (Hidx a Ha)).
  rewrite (nth_map_default (fun i => map (f i) l) l a 0 []) by exact Hal.
  rewrite (take_nth _ _ (f 0 0)) by (rewrite length_map; exact Hidx).
  f_equal; rewrite map_map; apply map_ext_in; intros b Hb.
  assert (Hbl : b < length l) by (rewrite Forall_forall in Hidx; exact (Hidx b Hb)).
  apply (nth_map_default (f (nth a l 0)) l b 0); exact Hbl.
Qed.

Lemma take_in_range {A : Type} (l : list A) (idx : list nat) (r : list A) :
  take l idx = Ok r -> Forall (fun k => k < length l) idx.
Proof.
  unfold take; revert r; induction idx as [|k idx IH]; intros r H; [constructor|].
  simpl in H; unfold getitem at 1 in H.
  destruct (nth_error l k) as [x|] eqn:E; simpl in H; [|discriminate].
  destruct (sequence (map (getitem l) idx)) as [r'|e] eqn:Es; simpl in H;
    [|discriminate].
  constructor; [apply nth_error_Some; congruence|].
  apply (IH r'); reflexivity.
Qed.

Lemma take_out_of_range {A : Type} (l : list A) (idx : list nat) :
  ~ Forall (fun k => k < length l) idx -> take l idx = Raise IndexError.
Proof.
  unfold take; induction idx as [|k idx IH]; intros H;
    [exfalso; apply H; constructor|].
  simpl; unfold getitem at 1.
  destruct (nth_error l k) as [x|] eqn:E; simpl; [|reflexivity].
  rewrite IH; [reflexivity|].
  intros Hrest; apply H; constructor; [|exact Hrest].
  apply nth_error_Some; congruence.
Qed.

Lemma squareform_Ok_inv {A : Type} (zero : A) (v : list A) (M : list (list A)) :
  squareform zero v = Ok M ->
  exists d, matrix_dim (length v) = Ok d /\ M = square_matrix zero d v
            /\ length M = d /\ length v = n_pairs d /\ 1 <= d.
Proof.
  unfold squareform; intros H.
  destruct (matrix_dim (length v)) as [d|e] eqn:E; simpl in H; [|discriminate].
  injection H as <-; exists d; split; [reflexivity|]; split; [reflexivity|].
  split; [apply square_matrix_length|].
  unfold matrix_dim in E.
  destruct (length v =? 0) eqn:E0.
  - injection E as <-; apply Nat.eqb_eq in E0; rewrite E0; split; [reflexivity|lia].
  - cbv zeta in E.
    destruct (Nat.sqrt_up (2 * length v) * (Nat.sqrt_up (2 * length v) - 1)
              =? 2 * length v) eqn:E1; [|discriminate].
    injection E as <-; apply Nat.eqb_eq in E1; apply Nat.eqb_neq in E0.
    change (length v + (length v + 0)) with (2 * length v).
    split.
    + unfold n_pairs.
      rewrite E1, Nat.mul_comm, Nat.div_mul by discriminate.
      reflexivity.
    + destruct (Nat.sqrt_up (2 * length v)); simpl in E1; lia.
Qed.

(** X8.  Reordering the square form twice is reordering once by the
    composed positions, so that reordering the plotted matrix by the
    inverse positions gives the square form back: [M[idx][:, idx]] loses
    nothing when [idx] is a permutation. *)
Theorem reordering_composes_and_undoes {A : Type} (zero : A) (v : list A)
  (M : list (list A)) (idx idx' : list nat) :
  squareform zero v = Ok M ->
  Forall (fun k => k < length M) idx ->
  Forall (fun k => k < length idx) idx' ->
  exists P,
    reindex M idx = Ok P
    /\ reindex P idx' = reindex M (map (fun k => nth k idx 0) idx')
    /\ (map (fun k => nth k idx 0) idx' = seq 0 (length M) ->
        reindex P idx' = Ok M).
Proof.
  intros HM Hidx Hidx'.
  destruct (squareform_Ok_inv zero v M HM) as (d & _ & -> & Hd & _).
  rewrite Hd in *.
  assert (Hcomp : Forall (fun k => k < d) (map (fun k => nth k idx 0) idx')).
  { apply Forall_map; rewrite Forall_forall in *; intros k Hk.
    apply Hidx, nth_In, Hidx', Hk. }
  eexists; split; [apply reindex_square_matrix; exact Hidx|].
  assert (E : reindex (map (fun i => map (fun j => square_cell zero d v i j) idx) idx)
                      idx'
              = reindex (square_matrix zero d v) (map (fun k => nth k idx 0) idx')).
  { rewrite (reindex_tabulated (fun i j => square_cell zero d v i j) idx idx' Hidx').
    rewrite reindex_square_matrix by exact Hcomp; reflexivity. }
  split; [exact E|].
  intros Hid; rewrite E, Hid.
  rewrite reindex_square_matrix by (apply Forall_forall; intros k Hk;
                                    apply in_seq in Hk; lia).
  reflexivity.
Qed.

Lemma reordering_composes_and_undoes_witness :
  exists M P,
    squareform 0 (seq 1 28) = Ok M
    /\ reindex M Notebook.reorder = Ok P
    /\ reindex P [2; 1; 5; 0; 6; 4; 7; 3] = Ok M.
Proof.
  eexists; 
  destruct (reordering_composes_and_undoes 0 (seq 1 28) _ Notebook.reorder
              [2; 1; 5; 0; 6; 4; 7; 3] eq_refl)
    as (P & HP & _ & Hundo).
  - repeat constructor.
  - repeat constructor.
  - exists P; split; [reflexivity|]; split; [exact HP|].
    apply Hundo; reflexivity.
Defined.

(** ** The reordered labels and the plotted cell *)

Ltac permutation_step :=
  first
    [ apply perm_nil
    | apply (Permutation_cons_app []); cbn [app]
    | apply (Permutation_cons_app [_]); cbn [app]
    | apply (Permutation_cons_app [_; _]); cbn [app]
    | apply (Permutation_cons_app [_; _; _]); cbn [app]
    | apply (Permutation_cons_app [_; _; _; _]); cbn [app]
    | apply (Permutation_cons_app [_; _; _; _; _]); cbn [app]
    | apply (Permutation_cons_app [_; _; _; _; _; _]); cbn [app]
    | apply (Permutation_cons_app [_; _; _; _; _; _; _]); cbn [app] ].

(** X9.  [categories[reorder]] raises IndexError when there are fewer
    than 8 categories; with 8 or more it lists 8 labels that are a
    permutation of the first 8 categories, so with exactly 8 categories
    every category labels exactly one row of the reordered plots. *)
Theorem reordered_categories_permute (cats : list string) :
  (length cats <= 7 -> reordered_categories cats = Raise IndexError)
  /\ (8 <= length cats ->
      exists l, reordered_categories cats = Ok l
                /\ length l = 8
                /\ Permutation (firstn 8 cats) l
                /\ forall a, a < 8 ->
                     nth_error l a = nth_error cats (nth a Notebook.reorder 0)).
Proof.
  unfold reordered_categories, Notebook.reorder; split; intros H.
  - do 8 (destruct cats as [|? cats]; [reflexivity|]); simpl in H; lia.
  - do 8 (destruct cats as [|? cats]; [simpl in H; lia|]).
    eexists; split; [reflexivity|]; split; [reflexivity|]; split.
    + cbn [firstn]; repeat permutation_step.
    + intros a Ha; do 8 (destruct a as [|a]; [reflexivity|]); lia.
Qed.

Lemma reordered_categories_permute_witness :
  exists l,
    reordered_categories
      ["bottle"; "cat"; "chair"; "face"; "house"; "scissors"; "scrambledpix";
       "shoe"]%string = Ok l
    /\ Permutation
         ["bottle"; "cat"; "chair"; "face"; "house"; "scissors"; "scrambledpix";
          "shoe"]%string l.
Proof.
  destruct (proj2 (reordered_categories_permute
                     ["bottle"; "cat"; "chair"; "face"; "house"; "scissors";
                      "scrambledpix"; "shoe"]%string))
    as (l & Hl & _ & Hp & _); [simpl; lia|].
  exists l; split; [exact Hl|exact Hp].
Defined.

Section SizePlot.

Context {F : Type} (sub : F -> F -> F) (abs : F -> F) (zero : F).

(** X10.  From the sizes to the plot: when |a - b| = |b - a| on the
    sizes, the reordered square form of the size model holds, at row a
    and column b, the size difference of the categories [idx[a]] and
    [idx[b]] that label them, and zero where both are the same
    category. *)
Theorem size_plot_cells (sizes : list F) (idx : list nat) (d0 : F) :
  (forall a b, In a sizes -> In b sizes -> abs (sub a b) = abs (sub b a)) ->
  Forall (fun k => k < length sizes) idx ->
  exists v M P,
    rdm_size_of sub abs sizes = Ok v
    /\ squareform zero v = Ok M
    /\ reindex M idx = Ok P
    /\ forall a b, a < length idx -> b < length idx ->
         cell P a b
         = Ok (if nth a idx 0 =? nth b idx 0 then zero
               else abs (sub (nth (nth a idx 0) sizes d0)
                             (nth (nth b idx 0) sizes d0))).
Proof.
  intros Hsym Hidx.
  set (metric := fun a b => abs (sub a b)).
  exists (pdist metric sizes).
  destruct (squareform_spec zero (length sizes) (pdist metric sizes)
              (pdist_length metric sizes)) as (M & HM & _ & _ & Hre).
  destruct (squareform_pdist zero metric sizes d0) as (M' & HM' & Hhollow & Hcells).
  assert (M' = M) by congruence; subst M'.
  assert (Hidx' : Forall (fun k => k < Nat.max (length sizes) 1) idx)
    by (revert Hidx; apply Forall_impl; intros k Hk; lia).
  destruct (Hre idx Hidx') as (P & HP & _ & HPcell).
  exists M, P; split; [apply rdm_size_of_pdist|]; split; [exact HM|].
  split; [exact HP|].
  intros a b Ha Hb; rewrite (HPcell a b Ha Hb).
  rewrite Forall_forall in Hidx.
  assert (Hi : nth a idx 0 < length sizes) by (apply Hidx, nth_In; exact Ha).
  assert (Hj : nth b idx 0 < length sizes) by (apply Hidx, nth_In; exact Hb).
  set (i := nth a idx 0) in *; set (j := nth b idx 0) in *.
  destruct (Nat.lt_trichotomy i j) as [Hlt | [Heq | Hgt]].
  - replace (i =? j) with false by (symmetry; apply Nat.eqb_neq; lia).
    apply (Hcells i j Hlt Hj).
  - rewrite Heq, Nat.eqb_refl.
    destruct Hhollow as (_ & Hdiag & _); apply Hdiag; lia.
  - replace (i =? j) with false by (symmetry; apply Nat.eqb_neq; lia).
    rewrite (proj2 (Hcells j i Hgt Hi)); unfold metric; f_equal.
    apply Hsym; apply nth_In; assumption.
Qed.

End SizePlot.

Lemma size_plot_cells_witness :
  exists v M P,
    Notebook.rdm_size = Ok v
    /\ squareform 0%float v = Ok M
    /\ Plots.heatmap v = Ok P
    /\ cell P 0 1 = Ok (PrimFloat.abs (PrimFloat.sub 0.2 0.35))
    /\ cell P 1 0 = Ok (PrimFloat.abs (PrimFloat.sub 0.35 0.2)).
Proof.
  destruct (size_plot_cells PrimFloat.sub PrimFloat.abs 0%float
              Notebook.sizes Notebook.reorder 0%float)
    as (v & M & P & Hv & HM & HP & Hcell).
  - intros a b Ha Hb; simpl in Ha, Hb.
    repeat (destruct Ha as [<- | Ha]; [|]); try contradiction;
      repeat (destruct Hb as [<- | Hb]; [|]); try contradiction; reflexivity.
  - repeat constructor.
  - exists v, M, P; split; [exact Hv|]; split; [exact HM|]; split.
    + unfold Plots.heatmap; rewrite HM; exact HP.
    + split; [apply (Hcell 0 1)|apply (Hcell 1 0)]; simpl; lia.
Defined.

Lemma n_pairs_at_least (d : nat) : 8 <= d -> 28 <= n_pairs d.
Proof.
  intros H; pose proof (n_pairs_double d) as H2.
  destruct d as [|d]; [lia|]; simpl in H2; rewrite Nat.sub_0_r in H2; nia.
Qed.

Lemma heatmap_Ok_iff (v : list float) :
  (exists P, Plots.heatmap v = Ok P)
  <-> exists d, 8 <= d /\ length v = n_pairs d.
Proof.
  unfold Plots.heatmap; split.
  - intros [P HP].
    destruct (squareform 0%float v) as [M|e] eqn:HM; simpl in HP; [|discriminate].
    destruct (squareform_Ok_inv 0%float v M HM) as (d & _ & _ & Hd & Hlen & _).
    exists d; split; [|exact Hlen].
    unfold reindex in HP.
    destruct (take M Notebook.reorder) as [rows|e] eqn:Ht; simpl in HP;
      [|discriminate].
    apply take_in_range in Ht; rewrite Hd in Ht.
    unfold Notebook.reorder in Ht.
    rewrite Forall_forall in Ht; specialize (Ht 7); simpl in Ht.
    assert (7 < d) by (apply Ht; tauto); lia.
  - intros (d & Hd & Hlen).
    rewrite (squareform_n_pairs 0%float d v Hlen); cbn [bind].
    rewrite Nat.max_l by lia.
    rewrite reindex_square_matrix; [eexists; reflexivity|].
    unfold Notebook.reorder; repeat constructor; lia.
Qed.

Lemma tick_labels_Ok_iff (categories : list string) :
  (exists l, take categories Notebook.reorder = Ok l) <-> 8 <= length categories.
Proof.
  split.
  - intros [l Hl]; apply take_in_range in Hl.
    unfold Notebook.reorder in Hl.
    rewrite Forall_forall in Hl; specialize (Hl 7); simpl in Hl.
    assert (7 < length categories) by (apply Hl; tauto); lia.
  - intros H; destruct (reordered_labels categories H) as (l & Hl & _).
    exists l; exact Hl.
Qed.

Lemma heatmap_of_Ok_iff (categories : list string) (rdm : string)
  (v : list float) :
  (exists h, Plots.heatmap_of categories rdm v = Ok h)
  <-> (exists P, Plots.heatmap v = Ok P) /\ 8 <= length categories.
Proof.
  unfold Plots.heatmap_of; split.
  - intros [h H].
    destruct (Plots.heatmap v) as [P|e]; simpl in H; [|discriminate].
    destruct (take categories Notebook.reorder) as [l|e] eqn:El; simpl in H;
      [|discriminate].
    split; [exists P; reflexivity|].
    apply tick_labels_Ok_iff; exists l; exact El.
  - intros [[P ->] Hc].
    apply tick_labels_Ok_iff in Hc; destruct Hc as [l ->].
    cbn [bind]; eexists; reflexivity.
Qed.

(** X11.  The cell that plots the three model RDMs runs through exactly
    when the neural RDM has the length d*(d-1)/2 of a vectorized triangle
    over d >= 8 categories (28, 36, 45, ...) and there are at least 8
    category labels: otherwise an assignment, a [squareform], the
    reordering of the matrix or the indexing of the labels raises. *)
Theorem heatmaps_run_iff_triangle_of_8 (categories : list string)
  (rdm_vt : list float) :
  (exists hs, Plots.heatmaps categories rdm_vt = Ok hs)
  <-> (exists d, 8 <= d /\ length rdm_vt = n_pairs d)
      /\ 8 <= length categories.
Proof.
  pose proof (rdm_animacy_length rdm_vt) as Ha.
  pose proof (rdm_tools_length rdm_vt) as Ht.
  destruct rdm_size_length as (s & Hs & _ & Hls).
  unfold Plots.heatmaps, Plots.rdms; rewrite Hs; split.
  - intros [hs H].
    destruct (Notebook.rdm_animacy rdm_vt) as [a|e]; simpl in H; [|discriminate].
    destruct (Notebook.rdm_tools rdm_vt) as [t|e]; simpl in H; [|discriminate].
    destruct (Plots.heatmap_of categories "animacy RDM" a) as [ha|e] eqn:Hpa;
      simpl in H; [|discriminate].
    destruct (proj1 (heatmap_of_Ok_iff categories "animacy RDM" a))
      as [HP Hc]; [exists ha; exact Hpa|].
    split; [|exact Hc].
    rewrite <- Ha; apply heatmap_Ok_iff; exact HP.
  - intros [(d & Hd & Hlen) Hc].
    pose proof (n_pairs_at_least d Hd) as H28.
    destruct (Notebook.rdm_animacy rdm_vt) as [a|e]; [|lia].
    destruct (Notebook.rdm_tools rdm_vt) as [t|e]; [|lia].
    cbn [bind map sequence fst snd].
    destruct (proj2 (heatmap_of_Ok_iff categories "animacy RDM" a)) as [ha ->].
    { split; [|exact Hc].
      apply heatmap_Ok_iff; exists d; split; [exact Hd|congruence]. }
    destruct (proj2 (heatmap_of_Ok_iff categories "tool RDM" t)) as [ht ->].
    { split; [|exact Hc].
      apply heatmap_Ok_iff; exists d; split; [exact Hd|congruence]. }
    destruct (proj2 (heatmap_of_Ok_iff categories "real-world size RDM" s))
      as [hsz ->].
    { split; [|exact Hc].
      apply heatmap_Ok_iff; exists 8; split; [lia|exact Hls]. }
    cbn [bind]; eexists; reflexivity.
Qed.

Lemma heatmaps_run_iff_triangle_of_8_witness :
  (exists hs,
     Plots.heatmaps ["bottle"; "cat"; "chair"; "face"; "house"; "scissors";
                     "scrambledpix"; "shoe"]%string (repeat 0%float 36) = Ok hs)
  /\ Plots.heatmaps ["bottle"; "cat"; "chair"; "face"; "house"; "scissors";
                     "scrambledpix"]%string (repeat 0%float 28)
     = Raise IndexError
  /\ Plots.heatmaps ["bottle"; "cat"; "chair"; "face"; "house"; "scissors";
                     "scrambledpix"; "shoe"]%string (repeat 0%float 30)
     = Raise ValueError.
Proof.
  split; [|split; reflexivity].
  apply (proj2 (heatmaps_run_iff_triangle_of_8
                  ["bottle"; "cat"; "chair"; "face"; "house"; "scissors";
                   "scrambledpix"; "shoe"]%string (repeat 0%float 36))).
  split; [exists 9; split; [lia|reflexivity]|simpl; lia].
Defined.

(** ** More on ranks *)

Lemma filter_length_Permutation {A : Type} (p : A -> bool) (l l' : list A) :
  Permutation l l' -> length (filter p l) = length (filter p l').
Proof.
  intros H; induction H as [|x l l' _ IH|x y l|l l' l'' _ IH1 _ IH2]; simpl.
  - reflexivity.
  - destruct (p x); simpl; rewrite IH; reflexivity.
  - destruct (p x), (p y); reflexivity.
  - rewrite IH1; exact IH2.
Qed.

(** X14.  The percentile of a value does not depend on where the entries
    sit in the array: for a rearranged array the pairs (value,
    percentile) are the same, rearranged alike. *)
Theorem rank_percentile_rearranged {A : Type} (ltb : A -> A -> bool)
  (a a' : list A) :
  Permutation a a' ->
  Permutation (combine a (rank_percentile ltb a))
              (combine a' (rank_percentile ltb a'))
  /\ Permutation (rank_percentile ltb a) (rank_percentile ltb a').
Proof.
  intros H.
  assert (E : forall x, percentile (length a') (rank2 ltb a' x)
                        = percentile (length a) (rank2 ltb a x)).
  { intros x; unfold rank2, count_lt, count_le.
    rewrite (Permutation_length H),
      (filter_length_Permutation (fun y => ltb y x) a a' H),
      (filter_length_Permutation (fun y => negb (ltb x y)) a a' H).
    reflexivity. }
  rewrite !rank_percentile_map, (map_ext _ _ E).
  set (g := fun x => percentile (length a) (rank2 ltb a x)).
  assert (C : forall l : list A, combine l (map g l) = map (fun x => (x, g x)) l)
    by (induction l as [|h t IH]; simpl; [|rewrite IH]; reflexivity).
  rewrite !C; split; apply Permutation_map; exact H.
Qed.

Lemma rank_percentile_rearranged_witness :
  Permutation (rank_percentile PrimFloat.ltb [0.5; 1; 0.25]%float)
              (rank_percentile PrimFloat.ltb [1; 0.25; 0.5]%float).
Proof.
  apply (rank_percentile_rearranged PrimFloat.ltb [0.5; 1; 0.25]%float
           [1; 0.25; 0.5]%float).
  apply (Permutation_cons_app [_; _] []); apply Permutation_refl.
Defined.
